(** * KanagawaEngine: a shallow embedding of [Sources/KanagawaEngine.cpp]

    The program is a userspace frequency governor: every five seconds it
    samples [/proc/stat], computes the busy percentage since the previous
    sample and, for every [policyN] directory under
    [/sys/devices/system/cpu/cpufreq], writes [scaling_min_freq] and
    [scaling_max_freq] from values picked out of the sorted table
    [scaling_available_frequencies].

    Modelling choices.
    - [int] and [unsigned long long] are [Z] with the wrap-around written
      out ([wrap_int], [wrap64]).
    - [float] and [double] are IEEE 754 binary32 and binary64 values, taken
      from the Standard Library's executable specification [SpecFloat]
      (round to nearest, ties to even).
    - The file system is an oracle indexed by a logical clock that advances
      at every [fopen], [open], [opendir] and [sleep], so that a file may
      change or vanish between two reads of the same path. Every call of
      [write_to_file] is recorded in a trace, with its outcome.
    - C strings are [string]; the character arrays of the source bound
      them ([snprintf] truncates). *)

From Stdlib Require Import ZArith Lia List Bool String Ascii.
From Stdlib Require Import Floats.SpecFloat.
From stdpp Require Import base tactics option list strings sorting pretty.

Local Open Scope string_scope.
Local Open Scope list_scope.
Local Open Scope Z_scope.

(* ================================================================= *)
(** ** Machine arithmetic *)

Module Machine.

(** [unsigned long long]: arithmetic modulo 2^64. *)
Definition wrap64 (z : Z) : Z := z mod 2 ^ 64.

Definition INT_MAX : Z := 2 ^ 31 - 1.
Definition INT_MIN : Z := - 2 ^ 31.

(** [int]: two's complement on 32 bits; a conversion to [int] keeps the
    low 32 bits. *)
Definition wrap_int (z : Z) : Z := (z + 2 ^ 31) mod 2 ^ 32 - 2 ^ 31.

Definition LONG_MAX : Z := 2 ^ 63 - 1.
Definition LONG_MIN : Z := - 2 ^ 63.

(** [strtol] on a number outside [long]: the nearest bound. *)
Definition saturate_long (z : Z) : Z := Z.max LONG_MIN (Z.min LONG_MAX z).

(** A C truth value. *)
Definition truthy (flag : Z) : bool := negb (flag =? 0).

End Machine.
Export Machine.

(* ================================================================= *)
(** ** IEEE 754 arithmetic of [float] and [double] *)

Module IEEE.

Definition b32_of_Z (z : Z) : spec_float := binary_normalize 24 128 z 0 false.
Definition b32_mul : spec_float -> spec_float -> spec_float := SFmul 24 128.

Definition b64_of_Z (z : Z) : spec_float := binary_normalize 53 1024 z 0 false.
Definition b64_mul : spec_float -> spec_float -> spec_float := SFmul 53 1024.
Definition b64_div : spec_float -> spec_float -> spec_float := SFdiv 53 1024.

(** [a > b] on floating-point values: false as soon as one is a NaN. *)
Definition fgt (a b : spec_float) : bool := SFltb b a.

Definition pos_zero : spec_float := S754_zero false.

(** The literals of the source. [0.75], [0.50], [1.0] and [0.0] are passed
    as [float]; [100.0] is a [double]. All are exact. *)
Definition f_0_75 : spec_float := binary_normalize 24 128 3 (-2) false.
Definition f_0_50 : spec_float := binary_normalize 24 128 1 (-1) false.
Definition f_1_0 : spec_float := b32_of_Z 1.
Definition f_0_0 : spec_float := pos_zero.
Definition d_100 : spec_float := b64_of_Z 100.

(** The integer part of a finite value, rounded toward zero. *)
Definition truncate (f : spec_float) : Z :=
  match f with
  | S754_finite s m e => cond_Zopp s (Z.shiftl (Zpos m) e)
  | _ => 0
  end.

(** The cast [(int)f]. C defines it when the truncated value fits an
    [int]; for the other inputs (too large, infinite, NaN) the model takes
    what the AArch64 conversion instruction yields: saturation, and 0 for
    a NaN. *)
Definition to_int (f : spec_float) : Z :=
  match f with
  | S754_nan => 0
  | S754_infinity s => if s then INT_MIN else INT_MAX
  | _ => Z.max INT_MIN (Z.min INT_MAX (truncate f))
  end.

(** The largest integer not above a finite value. *)
Definition floor (f : spec_float) : Z :=
  match f with
  | S754_finite s m e => Z.shiftl (cond_Zopp s (Zpos m)) e
  | _ => 0
  end.

(** [0 <= f <= 1], by the IEEE comparison. *)
Definition in_unit_interval (f : spec_float) : bool :=
  SFleb pos_zero f && SFleb f f_1_0.

End IEEE.
Export IEEE.

(* ================================================================= *)
(** ** The C library functions the program calls on strings *)

Module Libc.

Definition code (c : ascii) : Z := Z.of_nat (nat_of_ascii c).

(** [isspace] in the C locale. *)
Definition is_space (c : ascii) : bool :=
  (code c =? 32) || ((9 <=? code c) && (code c <=? 13)).

Definition digit_of (c : ascii) : option Z :=
  if (48 <=? code c) && (code c <=? 57) then Some (code c - 48) else None.

Fixpoint skip_space (s : string) : string :=
  match s with
  | String c s' => if is_space c then skip_space s' else s
  | EmptyString => s
  end.

(** The value of the leading run of decimal digits. *)
Fixpoint digits_value (acc : Z) (s : string) : Z :=
  match s with
  | String c s' =>
      match digit_of c with
      | Some d => digits_value (10 * acc + d) s'
      | None => acc
      end
  | EmptyString => acc
  end.

(** Sign and digits, after the leading white space. *)
Definition signed_digits (s : string) : bool * string :=
  match skip_space s with
  | String "-" r => (true, r)
  | String "+" r => (false, r)
  | r => (false, r)
  end.

(** [atoi]: 0 when no digit follows the optional sign. A number that does
    not fit an [int] is undefined in C; the model does what glibc and bionic
    do, [(int) strtol(s, NULL, 10)]. *)
Definition atoi (s : string) : Z :=
  let '(neg, ds) := signed_digits s in
  wrap_int (saturate_long (if neg then - digits_value 0 ds else digits_value 0 ds)).

(** [fscanf(fp, "%d", &val)] on the contents of a file: [None] when no
    integer is there, in which case nothing is stored; the number is
    converted as by [strtol] and stored as an [int]. *)
Definition scan_d (s : string) : option Z :=
  let '(neg, ds) := signed_digits s in
  match ds with
  | String c _ =>
      match digit_of c with
      | Some _ =>
          Some (wrap_int (saturate_long
                  (if neg then - digits_value 0 ds else digits_value 0 ds)))
      | None => None
      end
  | EmptyString => None
  end.

Definition NUL : ascii := ascii_of_nat 0.
Definition LF : ascii := ascii_of_nat 10.

(** A character array read as a C string ends at its first NUL. *)
Fixpoint c_string (s : string) : string :=
  match s with
  | String c s' => if Ascii.eqb c NUL then EmptyString else String c (c_string s')
  | EmptyString => EmptyString
  end.

(** At most [n] characters, stopping after the first newline. *)
Fixpoint read_line (n : nat) (s : string) : string :=
  match n, s with
  | S n', String c s' =>
      if Ascii.eqb c LF then String c EmptyString else String c (read_line n' s')
  | _, _ => EmptyString
  end.

(** [fgets(buf, size, fp)] on a freshly opened file: [None] at end of
    file, otherwise the buffer as the C string it holds. *)
Definition fgets (size : nat) (content : string) : option string :=
  match content with
  | EmptyString => None
  | _ => Some (c_string (read_line (size - 1) content))
  end.

(** The delimiters of [strtok(_, " \n")]. *)
Definition is_delim (c : ascii) : bool := Ascii.eqb c " " || Ascii.eqb c LF.

Fixpoint skip_delims (s : string) : string :=
  match s with
  | String c s' => if is_delim c then skip_delims s' else s
  | EmptyString => s
  end.

(** The token at the head of [s] and what follows the delimiter that
    ends it. *)
Fixpoint token_end (s : string) : string * string :=
  match s with
  | String c s' =>
      if is_delim c then (EmptyString, s')
      else let '(t, r) := token_end s' in (String c t, r)
  | EmptyString => (EmptyString, EmptyString)
  end.

(** One call of [strtok]: the next token and the saved position, or
    [None] for the null pointer. *)
Definition strtok (s : string) : option (string * string) :=
  match skip_delims s with
  | EmptyString => None
  | s1 => Some (token_end s1)
  end.

(** [snprintf(buf, size, "%s...", ...)]: the formatted text, cut to what
    the array holds. *)
Definition snprintf (size : nat) (text : string) : string :=
  substring 0 (size - 1) text.

(** [strncmp(name, prefix, strlen(prefix)) == 0]. *)
Definition has_prefix (p name : string) : bool := String.prefix p name.

End Libc.
Export Libc.

(* ================================================================= *)
(** ** The environment: files, directories, and the trace of writes *)

Module Env.

(** The numbers of the aggregate [cpu] line of [/proc/stat], as
    [fscanf] stores them ([unsigned long long], so below 2^64). *)
Record cpu_line := {
  user : Z; nice : Z; system : Z; idl : Z;
  iowait : Z; irq : Z; softirq : Z; steal : Z
}.

Inductive event :=
| EvWrite (path data : string) (landed : bool)
    (** a call of [write_to_file]; [landed] tells whether [open]
        succeeded, so that the bytes were written *)
| EvPrint (text : string)
| EvSleep (seconds : Z).

Record world := {
  now : nat;
  (** [fopen(path, "r")] at a given instant: the contents, or [None] when
      the file cannot be opened *)
  readable : nat -> string -> option string;
  (** [opendir] and the names [readdir] then yields, in order *)
  listing : nat -> string -> option (list string);
  (** whether [open(path, O_WRONLY)] succeeds *)
  writable : nat -> string -> bool;
  (** [fopen("/proc/stat")] followed by the [fscanf] of its first line *)
  stat_line : nat -> option cpu_line;
  (** what reading an object that was never written yields *)
  junk : Z;
  trace : list event
}.

Definition tick (w : world) : world :=
  {| now := S (now w); readable := readable w; listing := listing w;
     writable := writable w; stat_line := stat_line w; junk := junk w;
     trace := trace w |}.

Definition emit (e : event) (w : world) : world :=
  {| now := now w; readable := readable w; listing := listing w;
     writable := writable w; stat_line := stat_line w; junk := junk w;
     trace := trace w ++ [e] |}.

Definition fopen_r (path : string) (w : world) : option string * world :=
  (readable w (now w) path, tick w).

Definition opendir (path : string) (w : world) : option (list string) * world :=
  (listing w (now w) path, tick w).

Definition open_w (path : string) (w : world) : bool * world :=
  (writable w (now w) path, tick w).

Definition fopen_stat (w : world) : option cpu_line * world :=
  (stat_line w (now w), tick w).

Definition sleep (seconds : Z) (w : world) : world :=
  tick (emit (EvSleep seconds) w).

Definition printf (text : string) (w : world) : world :=
  emit (EvPrint text) w.

(** An array element; outside the array the read is undefined in C and
    yields [junk]. *)
Definition array_get (a : list Z) (i : Z) : option Z :=
  if i <? 0 then None else a !! Z.to_nat i.

Definition element (junk : Z) (a : list Z) (i : Z) : Z :=
  default junk (array_get a i).

End Env.
Export Env.

(* ================================================================= *)
(** ** The program *)

Definition MONITOR_INTERVAL_SEC : Z := 5.
Definition CPU_USAGE_THRESHOLD : Z := 40.
Definition MAX_PATH : nat := 256.
Definition MAX_FREQ_BUF : nat := 4096.
Definition SYS_CPU_BASE : string := "/sys/devices/system/cpu/cpufreq".

(** The size of [int freqs[100]]. *)
Definition FREQS_LEN : nat := 100.

Definition write_to_file (path value : string) (w : world) : world :=
  let '(fd_ok, w1) := open_w path w in
  emit (EvWrite path value fd_ok) w1.

Definition write_int_to_file (path : string) (value : Z) (w : world) : world :=
  let buf := snprintf 32 (pretty value) in
  write_to_file path buf w.

(** The two out-parameters are passed in and returned: when [fopen] fails
    they come back as they were. *)
Definition get_cpu_times (idle total : Z) (w : world) : Z * Z * world :=
  match fopen_stat w with
  | (None, w1) => (idle, total, w1)
  | (Some l, w1) =>
      (wrap64 (idl l + iowait l),
       wrap64 (user l + nice l + system l + idl l + iowait l + irq l + softirq l + steal l),
       w1)
  end.

(** [while (token && count < 100) { freqs[count++] = atoi(token); ... }],
    with [room] the number of free cells of [freqs]. *)
Fixpoint parse_loop (room : nat) (s : string) : list Z :=
  match room with
  | O => []
  | S room' =>
      match strtok s with
      | None => []
      | Some (token, rest) => atoi token :: parse_loop room' rest
      end
  end.

(** The body of the inner loop of the sort, at index [j]. *)
Definition compare_swap (freqs : list Z) (j : nat) : list Z :=
  match freqs !! j, freqs !! S j with
  | Some x, Some y => if x >? y then <[S j := x]> (<[j := y]> freqs) else freqs
  | _, _ => freqs
  end.

(** [for (j = ...; j < ...; j++)], [n] iterations from index [j]. *)
Fixpoint inner_loop (n j : nat) (freqs : list Z) : list Z :=
  match n with
  | O => freqs
  | S n' => inner_loop n' (S j) (compare_swap freqs j)
  end.

(** [for (i = ...; i < count - 1; i++)], [n] iterations from index [i]. *)
Fixpoint outer_loop (n i count : nat) (freqs : list Z) : list Z :=
  match n with
  | O => freqs
  | S n' => outer_loop n' (S i) count (inner_loop (count - i - 1) 0 freqs)
  end.

Definition bubble_sort (freqs : list Z) : list Z :=
  let count := length freqs in
  outer_loop (count - 1) 0 count freqs.

(** [int index = (int)(count * percent); if (index >= count) index = count - 1;] *)
Definition percent_index (count : Z) (percent : spec_float) : Z :=
  let index := to_int (b32_mul (b32_of_Z count) percent) in
  if index >=? count then count - 1 else index.

(** Lines 85 to 114 of the source: from the line read to the value
    returned. [garbage] stands for a read outside [freqs]. *)
Definition pick_freq (garbage : Z) (buf : string) (percent : spec_float)
    (return_abs_max return_abs_min : Z) : Z :=
  let freqs := parse_loop FREQS_LEN buf in
  let count := Z.of_nat (length freqs) in
  if count =? 0 then 0
  else
    let freqs := bubble_sort freqs in
    if truthy return_abs_max then element garbage freqs (count - 1)
    else if truthy return_abs_min then element garbage freqs 0
    else element garbage freqs (percent_index count percent).

Definition get_target_freq (policy_path : string) (percent : spec_float)
    (return_abs_max return_abs_min : Z) (w : world) : Z * world :=
  let path := snprintf MAX_PATH (policy_path +:+ "/scaling_available_frequencies") in
  match fopen_r path w with
  | (None, w1) =>
      if truthy return_abs_max then
        let path := snprintf MAX_PATH (policy_path +:+ "/cpuinfo_max_freq") in
        match fopen_r path w1 with
        | (Some content, w2) =>
            (match scan_d content with
             | Some val => val
             | None => wrap_int (junk w2)
             end, w2)
        | (None, w2) => (0, w2)
        end
      else (0, w1)
  | (Some content, w1) =>
      match fgets MAX_FREQ_BUF content with
      | None => (0, w1)
      | Some buf =>
          (pick_freq (wrap_int (junk w1)) buf percent return_abs_max return_abs_min, w1)
      end
  end.

Definition min_node_of (policy_path : string) : string :=
  snprintf MAX_PATH (policy_path +:+ "/scaling_min_freq").

Definition max_node_of (policy_path : string) : string :=
  snprintf MAX_PATH (policy_path +:+ "/scaling_max_freq").

Definition policy_path_of (d_name : string) : string :=
  snprintf MAX_PATH (SYS_CPU_BASE +:+ "/" +:+ d_name).

(** The body of the [readdir] loop of [apply_profile], for one entry. *)
Definition policy_step (is_high_load : Z) (d_name : string) (w : world) : world :=
  if has_prefix "policy" d_name then
    let policy_path := policy_path_of d_name in
    let '(absolute_max, w1) := get_target_freq policy_path f_1_0 1 0 w in
    let '(absolute_min, w2) := get_target_freq policy_path f_0_0 0 1 w1 in
    if (absolute_max =? 0) || (absolute_min =? 0) then w2
    else
      let min_node := min_node_of policy_path in
      let max_node := max_node_of policy_path in
      if truthy is_high_load then
        let '(target_75, w3) := get_target_freq policy_path f_0_75 0 0 w2 in
        write_int_to_file min_node target_75 (write_int_to_file max_node absolute_max w3)
      else
        let '(target_50, w3) := get_target_freq policy_path f_0_50 0 0 w2 in
        write_int_to_file max_node target_50 (write_int_to_file min_node absolute_min w3)
  else w.

(** [while ((ent = readdir(dir)) != NULL)], over the entries that remain. *)
Fixpoint readdir_loop (is_high_load : Z) (entries : list string) (w : world) : world :=
  match entries with
  | [] => w
  | d_name :: rest => readdir_loop is_high_load rest (policy_step is_high_load d_name w)
  end.

Definition apply_profile (is_high_load : Z) (w : world) : world :=
  match opendir SYS_CPU_BASE w with
  | (None, w1) => w1
  | (Some entries, w1) => readdir_loop is_high_load entries w1
  end.

(** The local variables of [main]. *)
Record locals := {
  prev_idle : Z; prev_total : Z;
  curr_idle : Z; curr_total : Z
}.

(** [usage], from the two differences (lines 185 to 188). *)
Definition usage_of (diff_total diff_idle : Z) : spec_float :=
  if diff_total >? 0 then
    b64_div (b64_mul d_100 (b64_of_Z (wrap64 (diff_total - diff_idle))))
            (b64_of_Z diff_total)
  else pos_zero.

(** [main] up to the loop. *)
Definition main_start (w : world) : locals * world :=
  let '(pi, pt, w1) := get_cpu_times 0 0 w in
  ({| prev_idle := pi; prev_total := pt; curr_idle := 0; curr_total := 0 |},
   printf ("Kanagawa Engine (Standard) Started." +:+ String LF EmptyString) w1).

(** One iteration of [while (1)]. *)
Definition main_iteration (st : locals) (w : world) : locals * world :=
  let w0 := sleep MONITOR_INTERVAL_SEC w in
  let '(ci, ct, w1) := get_cpu_times (curr_idle st) (curr_total st) w0 in
  let diff_total := wrap64 (ct - prev_total st) in
  let diff_idle := wrap64 (ci - prev_idle st) in
  let usage := usage_of diff_total diff_idle in
  let st' := {| prev_idle := ci; prev_total := ct; curr_idle := ci; curr_total := ct |} in
  if fgt usage (b64_of_Z CPU_USAGE_THRESHOLD) then (st', apply_profile 1 w1)
  else (st', apply_profile 0 w1).

(** The first [n] iterations of the loop, which never ends by itself. *)
Fixpoint main_loop (n : nat) (st : locals) (w : world) : locals * world :=
  match n with
  | O => (st, w)
  | S n' => let '(st', w') := main_iteration st w in main_loop n' st' w'
  end.

Definition main (n : nat) (w : world) : locals * world :=
  let '(st, w1) := main_start w in main_loop n st w1.

(* ================================================================= *)
(** ** The vocabulary of the specification, in terms of the program *)

Module Spec.

Record CpuSnapshot := { idleTicks : Z; totalTicks : Z }.

Inductive Profile := HighLoad | LowLoad.

Inductive Mode := AbsoluteMax | AbsoluteMin | Percentile (p : spec_float).

(** [resolve] is [get_target_freq], called the three ways
    [apply_profile] calls it. *)
Definition resolve (policy_path : string) (mode : Mode) (w : world) : Z * world :=
  match mode with
  | AbsoluteMax => get_target_freq policy_path f_1_0 1 0 w
  | AbsoluteMin => get_target_freq policy_path f_0_0 0 1 w
  | Percentile p => get_target_freq policy_path p 0 0 w
  end.

(** [apply(profile)] is [apply_profile] with the flag [main] passes. *)
Definition profile_flag (p : Profile) : Z :=
  match p with HighLoad => 1 | LowLoad => 0 end.

(** The threshold test of the loop, as a choice of profile. *)
Definition classify (usage : spec_float) : Profile :=
  if fgt usage (b64_of_Z CPU_USAGE_THRESHOLD) then HighLoad else LowLoad.

(** Lines 182 to 188 of [main], on two snapshots. *)
Definition utilization (prev curr : CpuSnapshot) : spec_float :=
  usage_of (wrap64 (totalTicks curr - totalTicks prev))
           (wrap64 (idleTicks curr - idleTicks prev)).


(** What an iteration of the loop samples, the usage it derives, and the
    world in which it then applies a profile. *)
Definition sampled (st : locals) (w : world) : Z * Z * world :=
  get_cpu_times (curr_idle st) (curr_total st) (sleep MONITOR_INTERVAL_SEC w).

Definition usage_at (st : locals) (w : world) : spec_float :=
  let '(ci, ct, _) := sampled st w in
  utilization {| idleTicks := prev_idle st; totalTicks := prev_total st |}
              {| idleTicks := ci; totalTicks := ct |}.

Definition world_at_apply (st : locals) (w : world) : world :=
  let '(_, _, w1) := sampled st w in w1.





(** The text [write_int_to_file] hands to [write_to_file]. *)
Definition decimal (value : Z) : string := snprintf 32 (pretty value).

(** The path of the frequency table of a domain, and of its fallback. *)
Definition table_of (policy_path : string) : string :=
  snprintf MAX_PATH (policy_path +:+ "/scaling_available_frequencies").

Definition fallback_of (policy_path : string) : string :=
  snprintf MAX_PATH (policy_path +:+ "/cpuinfo_max_freq").

(** Every token [strtok] would return on [s], however many: [fuel]
    bounds the number of calls. *)
Fixpoint tokens_upto (fuel : nat) (s : string) : list string :=
  match fuel with
  | O => []
  | S fuel' =>
      match strtok s with
      | None => []
      | Some (token, rest) => token :: tokens_upto fuel' rest
      end
  end.

Definition line_tokens (s : string) : list string :=
  tokens_upto (String.length s) s.

(** The tokens of the table a file holds: those of its first line, as
    [fgets] reads it. *)
Definition table_tokens (content : string) : list string :=
  match fgets MAX_FREQ_BUF content with
  | Some buf => line_tokens buf
  | None => []
  end.

(** The events a step appended to the trace. *)
Definition new_events (before after : world) : list event :=
  drop (length (trace before)) (trace after).

(** A world whose files, directories and permissions do not change with
    time. *)
Definition steady (w : world) : Prop :=
  (forall t p, readable w t p = readable w O p)
  /\ (forall t p, writable w t p = writable w O p)
  /\ (forall t p, listing w t p = listing w O p).

(** Two worlds that differ by the clock and the trace only. *)
Definition same_files (w w' : world) : Prop :=
  (forall t p, readable w t p = readable w' t p)
  /\ (forall t p, writable w t p = writable w' t p)
  /\ (forall t p, listing w t p = listing w' t p)
  /\ junk w = junk w'.



(** A finite, canonical binary32 value or a zero: what a [float] argument
    that is a number holds. *)
Definition is_number (f : spec_float) : bool :=
  match f with
  | S754_zero _ => true
  | S754_finite _ _ _ => valid_binary 24 128 f
  | _ => false
  end.

Definition is_finite (f : spec_float) : bool :=
  match f with
  | S754_zero _ | S754_finite _ _ _ => true
  | _ => false
  end.

(** [k < u], for an integer [k >= 0] and the number a floating-point
    value [u] denotes: [m * 2^e] for a finite one. *)
Definition above (k : Z) (u : spec_float) : Prop :=
  match u with
  | S754_finite false m e => k * 2 ^ Z.max 0 (- e) < Zpos m * 2 ^ Z.max 0 e
  | S754_infinity false => True
  | _ => False
  end.

(** The modes of the contract: a percentile is a number of the unit
    interval. *)
Definition well_formed (mode : Mode) : bool :=
  match mode with
  | Percentile p => is_number p && in_unit_interval p
  | _ => true
  end.

End Spec.
Export Spec.

(* ================================================================= *)
(** ** Definitions used in the proofs *)

Module Aux.

(** One pass of the sort written on the list itself: [n] adjacent
    comparisons from the head, the larger element carried along. *)
Fixpoint pass (n : nat) (l : list Z) : list Z :=
  match n, l with
  | S n', x :: y :: t =>
      if x >? y then y :: pass n' (x :: t) else x :: pass n' (y :: t)
  | _, _ => l
  end.

(** What [b32_of_Z count] must look like for the product with a
    percentage to stay small: positive, at most 24 bits, exponent at
    most 0. *)
Definition small_count (count : Z) : bool :=
  match b32_of_Z count with
  | S754_finite false m e => (Zpos m <? 2 ^ 24) && (e <=? 0)
  | _ => false
  end.

Definition is_write (e : event) : bool :=
  match e with EvWrite _ _ _ => true | _ => false end.

End Aux.
Export Aux.

(* ================================================================= *)
(** ** Concrete worlds *)

Module Scenario.

Definition nl : string := String LF EmptyString.

Definition policy0 : string := policy_path_of "policy0".
Definition policy1 : string := policy_path_of "policy1".

Definition one_file (path content : string) : string -> option string :=
  fun p => if String.eqb p path then Some content else None.

(** A world in which nothing changes: [files] gives the readable files,
    [entries] what the cpufreq directory lists; every control file can be
    written, and [/proc/stat] cannot be read. *)
Definition still (files : string -> option string)
    (entries : option (list string)) : world :=
  {| now := O;
     readable := fun _ p => files p;
     listing := fun _ p => if String.eqb p SYS_CPU_BASE then entries else None;
     writable := fun _ _ => true;
     stat_line := fun _ => None;
     junk := 0;
     trace := [] |}.

(** The table of section 8 of the specification. *)
Definition table4 : world :=
  still (one_file (table_of policy0) ("100 200 300 400" +:+ nl))
        (Some ["."; ".."; "policy0"]).

(** The same frequencies in another order, as sysfs prints them, each
    followed by a space. *)
Definition table4_shuffled : world :=
  still (one_file (table_of policy0) ("300 100 400 200 " +:+ nl))
        (Some ["."; ".."; "policy0"]).

(** Ten frequencies, 100 to 1000. *)
Definition table10 : world :=
  still (one_file (table_of policy0)
           ("100 200 300 400 500 600 700 800 900 1000 " +:+ nl))
        (Some ["."; ".."; "policy0"]).

(** No table, but the fallback maximum. *)
Definition fallback_only : world :=
  still (one_file (fallback_of policy0) ("1200000" +:+ nl)) (Some ["policy0"]).

(** Nothing at all under [policy0]. *)
Definition nothing_readable : world := still (fun _ => None) (Some ["policy0"]).

(** Two domains: [policy0] has neither table nor fallback, [policy1] has
    a table. *)
Definition two_domains : world :=
  still (one_file (table_of policy1) ("300000 600000 900000 1200000 " +:+ nl))
        (Some ["policy0"; "policy1"]).

(** The table of [policy0] can be read twice and is gone at the third
    read. *)
Definition vanishing : world :=
  {| now := O;
     readable := fun t p =>
       if (t <? 2)%nat then one_file (table_of policy0) ("100 200 300 400" +:+ nl) p
       else None;
     listing := fun _ _ => None;
     writable := fun _ _ => true;
     stat_line := fun _ => None;
     junk := 0;
     trace := [] |}.

(** 101 tokens: a hundred times [5] and once [1], the [1] last or first. *)
Definition fives : string := String.concat " " (repeat "5" 100).

Definition one_last : world :=
  still (one_file (table_of policy0) (fives +:+ " 1" +:+ nl)) (Some ["policy0"]).

Definition one_first : world :=
  still (one_file (table_of policy0) ("1 " +:+ fives +:+ nl)) (Some ["policy0"]).

(** Two readings of [/proc/stat]: idle 50 of 200, then idle 60 of 300. *)
Definition line_a : cpu_line :=
  {| user := 100; nice := 0; system := 50; idl := 40;
     iowait := 10; irq := 0; softirq := 0; steal := 0 |}.

Definition line_b : cpu_line :=
  {| user := 160; nice := 0; system := 80; idl := 45;
     iowait := 15; irq := 0; softirq := 0; steal := 0 |}.

(** A world without cpufreq directory whose [/proc/stat] answers as
    [stat] says. Without the directory, [main] opens [/proc/stat] at the
    instants 0, 2, 5, 8, ... *)
Definition stat_world (stat : nat -> option cpu_line) : world :=
  {| now := O;
     readable := fun _ _ => None;
     listing := fun _ _ => None;
     writable := fun _ _ => true;
     stat_line := stat;
     junk := 0;
     trace := [] |}.

(** Readable at the baseline and in the first iteration, then not. *)
Definition stat_then_gone : world :=
  stat_world (fun t => match t with
                       | O => Some line_a
                       | 2%nat => Some line_b
                       | _ => None
                       end).

(** Readable at the baseline only. *)
Definition stat_once : world :=
  stat_world (fun t => match t with O => Some line_a | _ => None end).

(** Never readable. *)
Definition stat_never : world := stat_world (fun _ => None).

End Scenario.
Export Scenario.

(* ================================================================= *)
(** ** Vocabulary of the further properties *)

Module More.

(** No character of [s] is a delimiter of [strtok], or the NUL that ends a
    C string. *)
Fixpoint plain (s : string) : bool :=
  match s with
  | EmptyString => true
  | String c s' => negb (is_delim c) && negb (Ascii.eqb c NUL) && plain s'
  end.

(** What [strtok] can return: a non-empty run of plain characters. *)
Definition is_token (t : string) : bool :=
  match t with
  | EmptyString => false
  | _ => plain t
  end.

(** A table line as the kernel prints it: every frequency followed by a
    space, then a newline. *)
Fixpoint table_line (tokens : list string) : string :=
  match tokens with
  | [] => String LF EmptyString
  | t :: rest => t +:+ String " " (table_line rest)
  end.

Definition is_sleep (e : event) : bool :=
  match e with EvSleep _ => true | _ => false end.

Definition is_print (e : event) : bool :=
  match e with EvPrint _ => true | _ => false end.

(** The line [main] prints when it starts. *)
Definition banner : string :=
  "Kanagawa Engine (Standard) Started." +:+ String LF EmptyString.

(** [e] is a call of [write_to_file] on one of the two control files of
    the directory entry [d_name]. *)
Definition writes_bound_of (d_name : string) (e : event) : Prop :=
  exists data landed,
    e = EvWrite (min_node_of (policy_path_of d_name)) data landed
    \/ e = EvWrite (max_node_of (policy_path_of d_name)) data landed.

(** The sum of the eight fields of a [cpu] line, and of its two idle
    fields, without wrap-around. *)
Definition fields_total (l : cpu_line) : Z :=
  user l + nice l + system l + idl l + iowait l + irq l + softirq l + steal l.

Definition fields_idle (l : cpu_line) : Z := idl l + iowait l.

Definition fields_nonneg (l : cpu_line) : Prop :=
  0 <= user l /\ 0 <= nice l /\ 0 <= system l /\ 0 <= idl l
  /\ 0 <= iowait l /\ 0 <= irq l /\ 0 <= softirq l /\ 0 <= steal l.

(** A table file that holds spaces and a newline, beside a fallback file
    that holds a frequency. *)
Definition blank_table : world :=
  still (fun p => if String.eqb p (table_of policy0) then Some ("   " +:+ nl)
                  else Some ("1200000" +:+ nl)) None.

(** A table with a token that is not a number. *)
Definition word_in_table : world :=
  still (one_file (table_of policy0) ("100 abc 300 " +:+ nl)) (Some ["policy0"]).

End More.
Export More.

(* ================================================================= *)
(** * Properties *)

(* ----------------------------------------------------------------- *)
(** ** The sort *)

Section Sorting.

Lemma compare_swap_cons a l j : compare_swap (a :: l) (S j) = a :: compare_swap l j.
Proof.
  unfold compare_swap. simpl.
  destruct (l !! j) as [x|]; [|done].
  destruct (l !! S j) as [y|]; [|done].
  by destruct (x >? y).
Qed.

Lemma compare_swap_middle pre x y t :
  compare_swap (pre ++ x :: y :: t) (length pre)
  = pre ++ (if x >? y then y :: x :: t else x :: y :: t).
Proof.
  induction pre as [|a pre IH]; simpl.
  - unfold compare_swap; simpl. by destruct (x >? y).
  - by rewrite compare_swap_cons, IH.
Qed.

Lemma compare_swap_short pre rest :
  (length rest <= 1)%nat -> compare_swap (pre ++ rest) (length pre) = pre ++ rest.
Proof.
  intros Hlen. unfold compare_swap.
  destruct ((pre ++ rest) !! length pre) as [x|] eqn:E1; [|done].
  destruct ((pre ++ rest) !! S (length pre)) as [y|] eqn:E2; [|done].
  apply lookup_lt_Some in E2. rewrite length_app in E2. lia.
Qed.


Lemma inner_loop_beyond n : forall j a,
  (length a <= S j)%nat -> inner_loop n j a = a.
Proof.
  induction n as [|n IH]; intros j a Hlen; simpl; [done|].
  assert (compare_swap a j = a) as ->.
  { unfold compare_swap. destruct (a !! j); [|done].
    rewrite (lookup_ge_None_2 a (S j)) by lia. done. }
  apply IH. lia.
Qed.

Lemma pass_short n l : (length l <= 1)%nat -> pass n l = l.
Proof. destruct n, l as [|x [|y t]]; simpl; intros; try done; lia. Qed.

Lemma inner_loop_pass n : forall pre rest,
  inner_loop n (length pre) (pre ++ rest) = pre ++ pass n rest.
Proof.
  induction n as [|n IH]; intros pre rest.
  - by destruct rest.
  - destruct (decide (length rest <= 1)%nat) as [Hs|Hl].
    + rewrite inner_loop_beyond by (rewrite length_app; lia).
      by rewrite pass_short.
    + destruct rest as [|x [|y t]]; simpl in Hl; try lia.
      cbn [inner_loop pass]. rewrite compare_swap_middle.
      destruct (x >? y).
      * specialize (IH (pre ++ [y]) (x :: t)).
        rewrite length_app in IH. simpl in IH.
        replace (length pre + 1)%nat with (S (length pre)) in IH by lia.
        rewrite <- !app_assoc in IH. simpl in IH. exact IH.
      * specialize (IH (pre ++ [x]) (y :: t)).
        rewrite length_app in IH. simpl in IH.
        replace (length pre + 1)%nat with (S (length pre)) in IH by lia.
        rewrite <- !app_assoc in IH. simpl in IH. exact IH.
Qed.

Lemma pass_perm n : forall l, pass n l ≡ₚ l.
Proof.
  induction n as [|n IH]; intros l; [by destruct l|].
  destruct l as [|x [|y t]]; simpl; try done.
  destruct (x >? y).
  - rewrite IH. apply perm_swap.
  - by rewrite IH.
Qed.

Lemma pass_length n l : length (pass n l) = length l.
Proof. apply Permutation_length, pass_perm. Qed.

Lemma pass_app n : forall p s, (n < length p)%nat -> pass n (p ++ s) = pass n p ++ s.
Proof.
  induction n as [|n IH]; intros p s Hn.
  - by destruct p.
  - destruct p as [|x [|y t]]; simpl in *; try lia.
    destruct (x >? y).
    + rewrite <- app_comm_cons. f_equal. apply (IH (x :: t)). simpl; lia.
    + rewrite <- app_comm_cons. f_equal. apply (IH (y :: t)). simpl; lia.
Qed.

Lemma pass_max n : forall p, length p = S n ->
  exists q m, pass n p = q ++ [m] /\ Forall (fun x => x <= m) p.
Proof.
  induction n as [|n IH]; intros p Hlen.
  - destruct p as [|x [|y t]]; simpl in *; try lia.
    exists [], x. split; [done|]. constructor; [lia|constructor].
  - destruct p as [|x [|y t]]; simpl in *; try lia.
    destruct (x >? y) eqn:Hxy.
    + destruct (IH (x :: t)) as (q & m & Hq & Hall); [simpl; lia|].
      exists (y :: q), m. rewrite Hq. split; [done|].
      inversion Hall; subst. repeat constructor; try done; lia.
    + destruct (IH (y :: t)) as (q & m & Hq & Hall); [simpl; lia|].
      exists (x :: q), m. rewrite Hq. split; [done|].
      inversion Hall; subst. repeat constructor; try done; lia.
Qed.

Lemma outer_loop_sorts n : forall p s,
  length p = S n ->
  StronglySorted Z.le s ->
  Forall (fun x => Forall (Z.le x) s) p ->
  let r := outer_loop n (length s) (length (p ++ s)) (p ++ s) in
  StronglySorted Z.le r /\ r ≡ₚ p ++ s.
Proof.
  induction n as [|n IH]; intros p s Hlen Hs Hps; cbn zeta.
  - destruct p as [|x [|y t]]; simpl in *; try lia.
    split; [|done]. constructor; [done|]. by inversion Hps.
  - cbn [outer_loop].
    assert (length (p ++ s) - length s - 1 = S n)%nat as ->
      by (rewrite length_app; lia).
    pose proof (inner_loop_pass (S n) [] (p ++ s)) as Hin.
    cbn [length app] in Hin. rewrite Hin. clear Hin.
    rewrite (pass_app (S n) p s) by lia.
    destruct (pass_max (S n) p Hlen) as (q & m & Hq & Hall).
    assert (Hperm : q ++ [m] ≡ₚ p) by (rewrite <- Hq; apply pass_perm).
    rewrite Hq, <- app_assoc. simpl.
    assert (Hlenq : length q = S n).
    { apply Permutation_length in Hperm. rewrite length_app in Hperm. simpl in Hperm. lia. }
    assert (Hm : Forall (Z.le m) s).
    { rewrite Forall_forall in Hps. apply Hps.
      rewrite <- Hperm. apply elem_of_app. right. by apply list_elem_of_singleton. }
    assert (Hqall : Forall (fun x => Forall (Z.le x) (m :: s)) q).
    { apply Forall_forall. intros x Hx.
      assert (Hxp : x ∈ p) by (rewrite <- Hperm; apply elem_of_app; by left).
      constructor.
      - rewrite Forall_forall in Hall. by apply Hall.
      - rewrite Forall_forall in Hps. by apply Hps. }
    specialize (IH q (m :: s) Hlenq (SSorted_cons m Hs Hm) Hqall).
    simpl in IH.
    replace (length (p ++ s)) with (length (q ++ m :: s)).
    2:{ rewrite !length_app. simpl. apply Permutation_length in Hperm.
        rewrite length_app in Hperm. simpl in Hperm. lia. }
    destruct IH as [IH1 IH2]. split; [done|].
    rewrite IH2. rewrite <- Hperm. rewrite <- app_assoc. done.
Qed.

Lemma bubble_sort_sorted l : StronglySorted Z.le (bubble_sort l).
Proof.
  unfold bubble_sort. destruct l as [|x l]; [constructor|].
  pose proof (outer_loop_sorts (length l) (x :: l) [] eq_refl (SSorted_nil _)) as H.
  simpl in H. rewrite app_nil_r in H. simpl.
  rewrite Nat.sub_0_r. apply H.
  apply Forall_forall. intros; constructor.
Qed.

Lemma bubble_sort_perm l : bubble_sort l ≡ₚ l.
Proof.
  unfold bubble_sort. destruct l as [|x l]; [done|].
  pose proof (outer_loop_sorts (length l) (x :: l) [] eq_refl (SSorted_nil _)) as H.
  simpl in H. rewrite app_nil_r in H. simpl.
  rewrite Nat.sub_0_r. apply H.
  apply Forall_forall. intros; constructor.
Qed.

End Sorting.

(* ----------------------------------------------------------------- *)
(** ** Rounding to binary32 *)

Section Rounding.

Lemma digits2_pos_bounds p :
  2 ^ (Zpos (digits2_pos p) - 1) <= Zpos p < 2 ^ Zpos (digits2_pos p).
Proof.
  induction p as [p IH|p IH|]; cbn [digits2_pos].
  - rewrite Pos2Z.inj_succ.
    replace (Z.succ (Z.pos (digits2_pos p)) - 1) with (Z.succ (Z.pos (digits2_pos p) - 1)) by lia.
    rewrite !Z.pow_succ_r by lia. lia.
  - rewrite Pos2Z.inj_succ.
    replace (Z.succ (Z.pos (digits2_pos p)) - 1) with (Z.succ (Z.pos (digits2_pos p) - 1)) by lia.
    rewrite !Z.pow_succ_r by lia. lia.
  - simpl. lia.
Qed.

Lemma Zdigits2_le_of_lt m d : 0 <= d -> 0 <= m < 2 ^ d -> Zdigits2 m <= d.
Proof.
  intros Hd [H0 Hm]. destruct m as [|p|p]; simpl; [lia| |lia].
  pose proof (digits2_pos_bounds p) as [Hlo _].
  destruct (Z_lt_le_dec d (Zpos (digits2_pos p))) as [Hlt|]; [|done].
  exfalso.
  assert (2 ^ d <= 2 ^ (Zpos (digits2_pos p) - 1)) by (apply Z.pow_le_mono_r; lia).
  lia.
Qed.

Lemma Zdigits2_nonneg m : 0 <= Zdigits2 m.
Proof. destruct m; simpl; lia. Qed.

Lemma shr_1_bounds mrs : 0 <= shr_m mrs -> 0 <= shr_m (shr_1 mrs) <= shr_m mrs.
Proof.
  destruct mrs as [m r s]. simpl. intros Hm.
  destruct m as [|[p|p|]|p]; simpl; lia.
Qed.

Lemma iter_shr_1_bounds n : forall mrs,
  0 <= shr_m mrs -> 0 <= shr_m (SpecFloat.iter_pos shr_1 n mrs) <= shr_m mrs.
Proof.
  induction n as [n IH|n IH|]; intros mrs Hm; cbn [SpecFloat.iter_pos].
  - pose proof (shr_1_bounds mrs Hm) as H1.
    pose proof (IH _ (proj1 H1)) as H2.
    pose proof (IH _ (proj1 H2)) as H3. lia.
  - pose proof (IH _ Hm) as H2.
    pose proof (IH _ (proj1 H2)) as H3. lia.
  - by apply shr_1_bounds.
Qed.

Lemma shr_record_of_loc_m m l : shr_m (shr_record_of_loc m l) = m.
Proof. by destruct l as [|[]]. Qed.

Lemma shr_fexp_bounds prec emax m e l :
  0 <= m ->
  let '(mrs, e') := shr_fexp prec emax m e l in
  0 <= shr_m mrs <= m /\ e' = Z.max e (fexp prec emax (Zdigits2 m + e)).
Proof.
  intros Hm. unfold shr_fexp, shr.
  destruct (fexp prec emax (Zdigits2 m + e) - e) as [|n|n] eqn:En.
  - rewrite shr_record_of_loc_m. lia.
  - pose proof (iter_shr_1_bounds n (shr_record_of_loc m l)) as H.
    rewrite shr_record_of_loc_m in H. specialize (H Hm). lia.
  - rewrite shr_record_of_loc_m. lia.
Qed.

Lemma round_nearest_even_bounds m l :
  0 <= m -> m <= round_nearest_even m l <= m + 1.
Proof. intros. unfold round_nearest_even. destruct l as [|[]]; try destruct (Z.even m); lia. Qed.

(** Rounding a quantity of at most 48 bits and non-positive exponent to
    binary32 cannot overflow: the result is a zero or a finite value, of the
    sign asked for. *)
Lemma binary_round_aux_small sx m0 e0 l :
  0 <= m0 < 2 ^ 48 -> e0 <= 0 ->
  binary_round_aux 24 128 sx m0 e0 l = S754_zero sx
  \/ exists m e, binary_round_aux 24 128 sx m0 e0 l = S754_finite sx m e.
Proof.
  intros [Hm Hm0] He. unfold binary_round_aux.
  pose proof (shr_fexp_bounds 24 128 m0 e0 l Hm) as H1.
  destruct (shr_fexp 24 128 m0 e0 l) as [mrs' e'].
  destruct H1 as [Hm' He'].
  set (mr := round_nearest_even (shr_m mrs') (loc_of_shr_record mrs')).
  pose proof (round_nearest_even_bounds (shr_m mrs') (loc_of_shr_record mrs') (proj1 Hm')) as Hr.
  fold mr in Hr.
  pose proof (shr_fexp_bounds 24 128 mr e' loc_Exact ltac:(lia)) as H2.
  destruct (shr_fexp 24 128 mr e' loc_Exact) as [mrs'' e''].
  destruct H2 as [Hm'' He''].
  destruct (shr_m mrs'') as [|q|q] eqn:Eq; [by left| |lia].
  right.
  assert (Hd0 : Zdigits2 m0 <= 48) by (apply Zdigits2_le_of_lt; lia).
  assert (Hmr : Zdigits2 mr <= 49).
  { apply Zdigits2_le_of_lt; [lia|]. split; [lia|].
    change (2 ^ 49) with (2 * 2 ^ 48). lia. }
  unfold fexp, SpecFloat.emin in *.
  assert (e'' <= 128 - 24) as Hle by lia.
  apply Z.leb_le in Hle. rewrite Hle. eauto.
Qed.

End Rounding.

(* ----------------------------------------------------------------- *)
(** ** The index of a percentile *)

Section PercentIndex.

Lemma range_100 (P : Z -> bool) :
  forallb P (seqZ 1 100) = true -> forall c, 1 <= c <= 100 -> P c = true.
Proof.
  intros H c Hc. rewrite forallb_forall in H. apply H.
  apply list_elem_of_In, elem_of_seqZ. lia.
Qed.

Lemma small_count_all c : 1 <= c <= 100 -> small_count c = true.
Proof. apply range_100. by vm_compute. Qed.

Lemma index_0_75 c : 1 <= c <= 100 -> percent_index c f_0_75 = 3 * c / 4.
Proof.
  intros Hc. apply Z.eqb_eq.
  revert c Hc. apply (range_100 (fun c => percent_index c f_0_75 =? 3 * c / 4)).
  by vm_compute.
Qed.

Lemma index_0_50 c : 1 <= c <= 100 -> percent_index c f_0_50 = c / 2.
Proof.
  intros Hc. apply Z.eqb_eq.
  revert c Hc. apply (range_100 (fun c => percent_index c f_0_50 =? c / 2)).
  by vm_compute.
Qed.

(** A number of the unit interval is a zero or a positive value of at most
    24 bits with a negative exponent. *)
Lemma unit_number_shape p :
  is_number p = true -> in_unit_interval p = true ->
  (exists s, p = S754_zero s)
  \/ exists m e, p = S754_finite false m e /\ Zpos m < 2 ^ 24 /\ e <= 0.
Proof.
  intros Hnum Hunit. destruct p as [s|s| |s m e]; try done; [by eauto|].
  right. exists m, e.
  unfold in_unit_interval in Hunit. apply andb_true_iff in Hunit as [H0 H1].
  destruct s; [by vm_compute in H0|].
  split; [done|].
  simpl in Hnum. unfold bounded, canonical_mantissa in Hnum.
  apply andb_true_iff in Hnum as [Hcan _]. apply Z.eqb_eq in Hcan.
  unfold fexp, SpecFloat.emin in Hcan.
  pose proof (digits2_pos_bounds m) as [_ Hhi].
  split.
  - eapply Z.lt_le_trans; [exact Hhi|]. apply Z.pow_le_mono_r; clear -Hcan; lia.
  - unfold SFleb, SFcompare, f_1_0 in H1. 
    change (b32_of_Z 1) with (S754_finite false 8388608 (-23)) in H1.
    cbv iota beta in H1.
    destruct (Z.compare_spec e (-23)); try done; lia.
Qed.

Lemma product_shape c p :
  1 <= c <= 100 -> is_number p = true -> in_unit_interval p = true ->
  (exists s, b32_mul (b32_of_Z c) p = S754_zero s)
  \/ exists m e, b32_mul (b32_of_Z c) p = S754_finite false m e.
Proof.
  intros Hc Hnum Hunit.
  pose proof (small_count_all c Hc) as Hsc. unfold small_count in Hsc.
  destruct (b32_of_Z c) as [| | |[] mc ec]; try done.
  apply andb_true_iff in Hsc as [Hmc Hec].
  apply Z.ltb_lt in Hmc. apply Z.leb_le in Hec.
  destruct (unit_number_shape p Hnum Hunit) as [[s ->]|(m & e & -> & Hm & He)].
  - left. simpl. eauto.
  - unfold b32_mul, SFmul. cbn [xorb].
    destruct (binary_round_aux_small false (Zpos (mc * m)) (ec + e) loc_Exact)
      as [H|H]; [| lia | by eauto | by eauto].
    split; [lia|]. rewrite Pos2Z.inj_mul.
    change (2 ^ 48) with (2 ^ 24 * 2 ^ 24). nia.
Qed.

Lemma product_finite c p :
  1 <= c <= 100 -> is_number p = true -> in_unit_interval p = true ->
  is_finite (b32_mul (b32_of_Z c) p) = true.
Proof.
  intros Hc Hn Hu.
  by destruct (product_shape c p Hc Hn Hu) as [[s ->]|(m & e & ->)].
Qed.

Lemma percent_index_floor c p :
  1 <= c <= 100 -> is_number p = true -> in_unit_interval p = true ->
  percent_index c p = Z.min (floor (b32_mul (b32_of_Z c) p)) (c - 1)
  /\ 0 <= percent_index c p <= c - 1.
Proof.
  intros Hc Hn Hu. unfold percent_index. rewrite Z.geb_leb.
  destruct (product_shape c p Hc Hn Hu) as [[s ->]|(m & e & ->)].
  - cbn [to_int truncate floor]. unfold INT_MIN, INT_MAX.
    destruct (Z.leb_spec c (Z.max (- 2 ^ 31) (Z.min (2 ^ 31 - 1) 0))); lia.
  - cbn [to_int truncate floor cond_Zopp].
    assert (0 <= Z.shiftl (Z.pos m) e) by (apply Z.shiftl_nonneg; lia).
    unfold INT_MIN, INT_MAX.
    destruct (Z.leb_spec c (Z.max (- 2 ^ 31) (Z.min (2 ^ 31 - 1) (Z.shiftl (Z.pos m) e)))); lia.
Qed.

End PercentIndex.

(* ----------------------------------------------------------------- *)
(** ** The choice of a frequency in the sorted array *)

Section PickFreq.

Lemma sorted_is_bubble_sort (s freqs : list Z) :
  s ≡ₚ freqs -> Sorted Z.le s -> s = bubble_sort freqs.
Proof.
  intros Hperm Hs.
  apply (Sorted_unique Z.le); [done| |].
  - apply StronglySorted_Sorted, bubble_sort_sorted.
  - by rewrite bubble_sort_perm.
Qed.

Lemma array_get_in_range (a : list Z) (i : Z) :
  0 <= i < Z.of_nat (length a) ->
  exists v, array_get a i = Some v /\ a !! Z.to_nat i = Some v /\ v ∈ a.
Proof.
  intros Hi. unfold array_get.
  destruct (Z.ltb_spec i 0); [lia|].
  destruct (lookup_lt_is_Some_2 a (Z.to_nat i)) as [v Hv]; [lia|].
  exists v. split_and!; [done|done|]. by eapply list_elem_of_lookup_2.
Qed.

Lemma array_get_last (a : list Z) :
  a <> [] -> array_get a (Z.of_nat (length a) - 1) = last a.
Proof.
  intros Ha. unfold array_get.
  destruct (Z.ltb_spec (Z.of_nat (length a) - 1) 0) as [H|H].
  - destruct a; [done|simpl in H; lia].
  - rewrite last_lookup. f_equal. lia.
Qed.

Lemma array_get_head (a : list Z) : array_get a 0 = head a.
Proof. unfold array_get. simpl. by destruct a. Qed.

Lemma parse_loop_length room : forall s, (length (parse_loop room s) <= room)%nat.
Proof.
  induction room as [|room IH]; intros s; simpl; [lia|].
  destruct (strtok s) as [[token rest]|]; simpl; [|lia].
  specialize (IH rest). lia.
Qed.

(** What [pick_freq] returns on a line that holds at least one token, in
    terms of the sorted array. *)
Lemma pick_freq_nonempty g buf percent ram rmin :
  parse_loop FREQS_LEN buf <> [] ->
  let freqs := bubble_sort (parse_loop FREQS_LEN buf) in
  let count := Z.of_nat (length freqs) in
  1 <= count <= 100
  /\ pick_freq g buf percent ram rmin
     = if truthy ram then element g freqs (count - 1)
       else if truthy rmin then element g freqs 0
       else element g freqs (percent_index count percent).
Proof.
  intros Hne freqs count.
  assert (Hlen : length freqs = length (parse_loop FREQS_LEN buf))
    by apply Permutation_length, bubble_sort_perm.
  pose proof (parse_loop_length FREQS_LEN buf) as Hle.
  assert (Hc : 1 <= count <= 100).
  { unfold count. rewrite Hlen. unfold FREQS_LEN in *.
    destruct (parse_loop 100 buf); [done|simpl in *; lia]. }
  split; [done|].
  unfold pick_freq. fold freqs. rewrite <- Hlen. fold count.
  destruct (Z.eqb_spec count 0); [lia|done].
Qed.

Lemma pick_freq_empty g buf percent ram rmin :
  parse_loop FREQS_LEN buf = [] -> pick_freq g buf percent ram rmin = 0.
Proof. intros H. unfold pick_freq. by rewrite H. Qed.

End PickFreq.

(* ----------------------------------------------------------------- *)
(** ** Reading a target frequency *)

Section GetTargetFreq.

(** [get_target_freq], case by case. *)
Lemma get_target_freq_table path percent ram rmin w content buf :
  readable w (now w) (table_of path) = Some content ->
  fgets MAX_FREQ_BUF content = Some buf ->
  get_target_freq path percent ram rmin w
  = (pick_freq (wrap_int (junk w)) buf percent ram rmin, tick w).
Proof.
  intros Hr Hg. unfold get_target_freq, fopen_r. fold (table_of path).
  by rewrite Hr, Hg.
Qed.

Lemma get_target_freq_empty_file path percent ram rmin w content :
  readable w (now w) (table_of path) = Some content ->
  fgets MAX_FREQ_BUF content = None ->
  get_target_freq path percent ram rmin w = (0, tick w).
Proof.
  intros Hr Hg. unfold get_target_freq, fopen_r. fold (table_of path).
  by rewrite Hr, Hg.
Qed.

Lemma get_target_freq_no_table path percent rmin w :
  readable w (now w) (table_of path) = None ->
  get_target_freq path percent 0 rmin w = (0, tick w).
Proof.
  intros Hr. unfold get_target_freq, fopen_r. fold (table_of path).
  by rewrite Hr.
Qed.

Lemma get_target_freq_fallback path percent ram rmin w :
  readable w (now w) (table_of path) = None ->
  truthy ram = true ->
  get_target_freq path percent ram rmin w
  = (match readable w (S (now w)) (fallback_of path) with
     | Some content => default (wrap_int (junk w)) (scan_d content)
     | None => 0
     end, tick (tick w)).
Proof.
  intros Hr Ht. unfold get_target_freq, fopen_r. fold (table_of path) (fallback_of path).
  rewrite Hr, Ht. simpl.
  destruct (readable w (S (now w)) (fallback_of path)) as [content|]; [|done].
  by destruct (scan_d content).
Qed.

(** Reading changes the clock only. *)
Lemma get_target_freq_frame path percent ram rmin w :
  let w' := snd (get_target_freq path percent ram rmin w) in
  readable w' = readable w /\ writable w' = writable w /\ listing w' = listing w
  /\ stat_line w' = stat_line w /\ junk w' = junk w /\ trace w' = trace w
  /\ (now w < now w')%nat.
Proof.
  unfold get_target_freq, fopen_r.
  destruct (readable w (now w) _) as [content|].
  - destruct (fgets MAX_FREQ_BUF content); simpl; split_and!; try done; lia.
  - destruct (truthy ram); simpl; [|split_and!; try done; lia].
    destruct (readable w (S (now w)) _); simpl; split_and!; try done; lia.
Qed.

Lemma steady_frame w w' :
  readable w' = readable w -> writable w' = writable w -> listing w' = listing w ->
  steady w -> steady w'.
Proof. intros Hr Hw Hl (H1 & H2 & H3). unfold steady. rewrite Hr, Hw, Hl. done. Qed.

Lemma same_files_frame w w' :
  readable w' = readable w -> writable w' = writable w -> listing w' = listing w ->
  junk w' = junk w -> same_files w w'.
Proof. intros Hr Hw Hl Hj. unfold same_files. rewrite Hr, Hw, Hl, Hj. done. Qed.

Lemma same_files_trans w1 w2 w3 :
  same_files w1 w2 -> same_files w2 w3 -> same_files w1 w3.
Proof.
  intros (A1 & A2 & A3 & A4) (B1 & B2 & B3 & B4). unfold same_files.
  split_and!; intros; congruence.
Qed.

Lemma same_files_sym w1 w2 : same_files w1 w2 -> same_files w2 w1.
Proof. intros (A1 & A2 & A3 & A4). unfold same_files. split_and!; intros; congruence. Qed.

Lemma steady_same_files w w' : steady w -> same_files w w' -> steady w'.
Proof.
  intros (H1 & H2 & H3) (A1 & A2 & A3 & A4). unfold steady.
  split_and!; intros; rewrite <- ?A1, <- ?A2, <- ?A3; done.
Qed.

(** In a steady world the value read does not depend on the instant. *)
Lemma get_target_freq_steady path percent ram rmin w w' :
  steady w -> same_files w w' ->
  fst (get_target_freq path percent ram rmin w)
  = fst (get_target_freq path percent ram rmin w').
Proof.
  intros (H1 & H2 & H3) (A1 & A2 & A3 & A4).
  unfold get_target_freq, fopen_r.
  rewrite <- (A1 (now w')), (H1 (now w)), (H1 (now w')).
  destruct (readable w 0%nat _) as [content|].
  - destruct (fgets MAX_FREQ_BUF content); simpl; [|done]. by rewrite A4.
  - destruct (truthy ram); simpl; [|done].
    rewrite <- (A1 (S (now w'))), (H1 (S (now w))), (H1 (S (now w'))).
    destruct (readable w 0%nat _) as [content|]; simpl; [|done].
    destruct (scan_d content); [done|]. by rewrite A4.
Qed.

End GetTargetFreq.

(* ----------------------------------------------------------------- *)
(** ** One scaling domain *)

Section PolicyStep.

Lemma write_int_to_file_trace node v w :
  trace (write_int_to_file node v w)
  = trace w ++ [EvWrite node (decimal v) (writable w (now w) node)].
Proof. done. Qed.

Lemma write_int_to_file_frame node v w :
  let w' := write_int_to_file node v w in
  readable w' = readable w /\ writable w' = writable w /\ listing w' = listing w
  /\ stat_line w' = stat_line w /\ junk w' = junk w /\ now w' = S (now w).
Proof. done. Qed.

Lemma truthy_true flag : truthy flag = true <-> flag <> 0.
Proof. unfold truthy. destruct (Z.eqb_spec flag 0); simpl; split; intros; done. Qed.

Lemma truthy_false flag : truthy flag = false <-> flag = 0.
Proof. unfold truthy. destruct (Z.eqb_spec flag 0); simpl; split; intros; done. Qed.

(** The events one directory entry adds to the trace. *)
Lemma policy_step_other h d w : has_prefix "policy" d = false -> policy_step h d w = w.
Proof. intros H. unfold policy_step. by rewrite H. Qed.

Lemma policy_step_skipped h d w :
  has_prefix "policy" d = true ->
  let path := policy_path_of d in
  let r1 := resolve path AbsoluteMax w in
  let r2 := resolve path AbsoluteMin (snd r1) in
  fst r1 = 0 \/ fst r2 = 0 ->
  policy_step h d w = snd r2.
Proof.
  intros Hp path r1 r2 Hz. unfold policy_step. rewrite Hp. fold path.
  change (get_target_freq path f_1_0 1 0 w) with r1.
  destruct r1 as [amax w1] eqn:E1.
  change (get_target_freq path f_0_0 0 1 w1) with r2.
  destruct r2 as [amin w2] eqn:E2. simpl in *.
  destruct (Z.eqb_spec amax 0), (Z.eqb_spec amin 0); simpl; try done. lia.
Qed.

Lemma policy_step_resolved h d w :
  has_prefix "policy" d = true ->
  let path := policy_path_of d in
  let r1 := resolve path AbsoluteMax w in
  let r2 := resolve path AbsoluteMin (snd r1) in
  fst r1 <> 0 -> fst r2 <> 0 ->
  let r3 := resolve path (Percentile (if truthy h then f_0_75 else f_0_50)) (snd r2) in
  let t := now (snd r3) in
  trace (policy_step h d w)
  = trace w ++
    (if truthy h then
       [EvWrite (max_node_of path) (decimal (fst r1)) (writable w t (max_node_of path));
        EvWrite (min_node_of path) (decimal (fst r3)) (writable w (S t) (min_node_of path))]
     else
       [EvWrite (min_node_of path) (decimal (fst r2)) (writable w t (min_node_of path));
        EvWrite (max_node_of path) (decimal (fst r3)) (writable w (S t) (max_node_of path))]).
Proof.
  intros Hp path r1 r2 H1 H2 r3 t. unfold policy_step. rewrite Hp. fold path.
  pose proof (get_target_freq_frame path f_1_0 1 0 w) as F1.
  change (get_target_freq path f_1_0 1 0 w) with r1 in *.
  destruct r1 as [amax w1] eqn:E1.
  pose proof (get_target_freq_frame path f_0_0 0 1 w1) as F2.
  change (get_target_freq path f_0_0 0 1 w1) with r2 in *.
  destruct r2 as [amin w2] eqn:E2. simpl in H1, H2, F1, F2.
  destruct (Z.eqb_spec amax 0); [done|]. destruct (Z.eqb_spec amin 0); [done|].
  cbn [orb]. subst t r3. cbn [resolve snd fst].
  destruct (truthy h).
  - pose proof (get_target_freq_frame path f_0_75 0 0 w2) as F3.
    destruct (get_target_freq path f_0_75 0 0 w2) as [t75 w3]. simpl in F3 |- *.
    destruct F1 as (_ & Fw1 & _ & _ & _ & Ft1 & _).
    destruct F2 as (_ & Fw2 & _ & _ & _ & Ft2 & _).
    destruct F3 as (_ & Fw3 & _ & _ & _ & Ft3 & _).
    rewrite Ft3, Ft2, Ft1, Fw3, Fw2, Fw1. rewrite <- app_assoc. done.
  - pose proof (get_target_freq_frame path f_0_50 0 0 w2) as F3.
    destruct (get_target_freq path f_0_50 0 0 w2) as [t50 w3]. simpl in F3 |- *.
    destruct F1 as (_ & Fw1 & _ & _ & _ & Ft1 & _).
    destruct F2 as (_ & Fw2 & _ & _ & _ & Ft2 & _).
    destruct F3 as (_ & Fw3 & _ & _ & _ & Ft3 & _).
    rewrite Ft3, Ft2, Ft1, Fw3, Fw2, Fw1. rewrite <- app_assoc. done.
Qed.

(** A step leaves the files alone and appends writes only. *)
Lemma policy_step_frame h d w :
  let w' := policy_step h d w in
  readable w' = readable w /\ writable w' = writable w /\ listing w' = listing w
  /\ stat_line w' = stat_line w /\ junk w' = junk w
  /\ exists evs, trace w' = trace w ++ evs /\ forallb is_write evs = true.
Proof.
  unfold policy_step.
  destruct (has_prefix "policy" d); [|split_and!; try done; exists []; by rewrite app_nil_r].
  set (path := policy_path_of d).
  pose proof (get_target_freq_frame path f_1_0 1 0 w) as F1.
  destruct (get_target_freq path f_1_0 1 0 w) as [amax w1].
  pose proof (get_target_freq_frame path f_0_0 0 1 w1) as F2.
  destruct (get_target_freq path f_0_0 0 1 w1) as [amin w2].
  simpl in F1, F2.
  destruct F1 as (R1 & W1 & L1 & S1 & J1 & T1 & _).
  destruct F2 as (R2 & W2 & L2 & S2 & J2 & T2 & _).
  destruct ((amax =? 0) || (amin =? 0)).
  { cbn zeta. rewrite R2, W2, L2, S2, J2, T2, R1, W1, L1, S1, J1, T1.
    split_and!; try done. exists []. by rewrite app_nil_r. }
  destruct (truthy h).
  - pose proof (get_target_freq_frame path f_0_75 0 0 w2) as F3.
    destruct (get_target_freq path f_0_75 0 0 w2) as [t75 w3]. simpl in F3.
    destruct F3 as (R3 & W3 & L3 & S3 & J3 & T3 & _).
    cbn zeta. rewrite !write_int_to_file_trace. simpl.
    rewrite R3, W3, L3, S3, J3, T3, R2, W2, L2, S2, J2, T2, R1, W1, L1, S1, J1, T1.
    split_and!; try done. eexists. rewrite <- app_assoc. split; [done|done].
  - pose proof (get_target_freq_frame path f_0_50 0 0 w2) as F3.
    destruct (get_target_freq path f_0_50 0 0 w2) as [t50 w3]. simpl in F3.
    destruct F3 as (R3 & W3 & L3 & S3 & J3 & T3 & _).
    cbn zeta. rewrite !write_int_to_file_trace. simpl.
    rewrite R3, W3, L3, S3, J3, T3, R2, W2, L2, S2, J2, T2, R1, W1, L1, S1, J1, T1.
    split_and!; try done. eexists. rewrite <- app_assoc. split; [done|done].
Qed.

End PolicyStep.

(* ----------------------------------------------------------------- *)
(** ** All the domains *)

Section ApplyProfile.

Lemma new_events_app w w' evs : trace w' = trace w ++ evs -> new_events w w' = evs.
Proof. intros H. unfold new_events. rewrite H. apply drop_app_length. Qed.

Lemma readdir_loop_frame h entries : forall w,
  let w' := readdir_loop h entries w in
  readable w' = readable w /\ writable w' = writable w /\ listing w' = listing w
  /\ stat_line w' = stat_line w /\ junk w' = junk w
  /\ exists evs, trace w' = trace w ++ evs /\ forallb is_write evs = true.
Proof.
  induction entries as [|d rest IH]; intros w; cbn [readdir_loop].
  - split_and!; try done. exists []. by rewrite app_nil_r.
  - destruct (policy_step_frame h d w) as (R1 & W1 & L1 & S1 & J1 & evs1 & T1 & A1).
    destruct (IH (policy_step h d w)) as (R2 & W2 & L2 & S2 & J2 & evs2 & T2 & A2).
    cbn zeta. rewrite R2, W2, L2, S2, J2, R1, W1, L1, S1, J1.
    split_and!; try done. exists (evs1 ++ evs2).
    rewrite T2, T1, <- app_assoc, forallb_app, A1, A2. done.
Qed.

Lemma apply_profile_frame h w :
  let w' := apply_profile h w in
  readable w' = readable w /\ writable w' = writable w /\ listing w' = listing w
  /\ stat_line w' = stat_line w /\ junk w' = junk w
  /\ exists evs, trace w' = trace w ++ evs /\ forallb is_write evs = true.
Proof.
  unfold apply_profile, opendir.
  destruct (listing w (now w) SYS_CPU_BASE) as [entries|].
  - apply (readdir_loop_frame h entries (tick w)).
  - split_and!; try done. exists []. by rewrite app_nil_r.
Qed.

(** In a steady world, what a domain gets written does not depend on the
    instant at which it is reached. *)
Lemma policy_step_steady h d w w' :
  steady w -> same_files w w' ->
  new_events w (policy_step h d w) = new_events w' (policy_step h d w').
Proof.
  intros St Sf.
  destruct (has_prefix "policy" d) eqn:Hp.
  2:{ rewrite !policy_step_other by done. unfold new_events. by rewrite !drop_all. }
  set (path := policy_path_of d).
  pose proof (get_target_freq_frame path f_1_0 1 0 w) as (R1 & W1 & L1 & _ & J1 & T1 & _).
  pose proof (get_target_freq_frame path f_1_0 1 0 w') as (R1' & W1' & L1' & _ & J1' & T1' & _).
  set (r1 := resolve path AbsoluteMax w) in *.
  set (r1' := resolve path AbsoluteMax w') in *.
  change (get_target_freq path f_1_0 1 0 w) with r1 in *.
  change (get_target_freq path f_1_0 1 0 w') with r1' in *.
  cbn zeta in *.
  assert (E1 : fst r1 = fst r1') by (by apply get_target_freq_steady).
  assert (St1 : steady (snd r1)) by (by apply (steady_frame w)).
  assert (Sf1 : same_files (snd r1) (snd r1')).
  { eapply same_files_trans; [apply same_files_sym, same_files_frame; done|].
    eapply same_files_trans; [exact Sf|]. by apply same_files_frame. }
  pose proof (get_target_freq_frame path f_0_0 0 1 (snd r1)) as (R2 & W2 & L2 & _ & J2 & T2 & _).
  pose proof (get_target_freq_frame path f_0_0 0 1 (snd r1')) as (R2' & W2' & L2' & _ & J2' & T2' & _).
  set (r2 := resolve path AbsoluteMin (snd r1)) in *.
  set (r2' := resolve path AbsoluteMin (snd r1')) in *.
  change (get_target_freq path f_0_0 0 1 (snd r1)) with r2 in *.
  change (get_target_freq path f_0_0 0 1 (snd r1')) with r2' in *.
  cbn zeta in *.
  assert (E2 : fst r2 = fst r2') by (by apply get_target_freq_steady).
  assert (St2 : steady (snd r2)) by (by apply (steady_frame (snd r1))).
  assert (Sf2 : same_files (snd r2) (snd r2')).
  { eapply same_files_trans; [apply same_files_sym, same_files_frame; done|].
    eapply same_files_trans; [exact Sf1|]. by apply same_files_frame. }
  destruct (decide (fst r1 = 0 \/ fst r2 = 0)) as [Hz|Hnz].
  - rewrite (policy_step_skipped h d w Hp Hz).
    rewrite (policy_step_skipped h d w' Hp) by (fold path r1' r2'; lia).
    fold path r1 r2 r1' r2'.
    rewrite (new_events_app w (snd r2) []) by (rewrite app_nil_r; congruence).
    rewrite (new_events_app w' (snd r2') []) by (rewrite app_nil_r; congruence).
    done.
  - assert (fst r1 <> 0 /\ fst r2 <> 0) as [N1 N2] by lia.
    rewrite (new_events_app _ _ _ (policy_step_resolved h d w Hp N1 N2)).
    rewrite (new_events_app _ _ _ (policy_step_resolved h d w' Hp ltac:(fold path r1'; lia)
                                     ltac:(fold path r1' r2'; lia))).
    fold path r1 r2 r1' r2'.
    assert (E3 : fst (resolve path (Percentile (if truthy h then f_0_75 else f_0_50)) (snd r2))
                 = fst (resolve path (Percentile (if truthy h then f_0_75 else f_0_50)) (snd r2')))
      by (by apply get_target_freq_steady).
    rewrite E1, E2, E3.
    destruct St as (_ & Sw & _). destruct Sf as (_ & Sfw & _).
    assert (Hw : forall t t' p, writable w t p = writable w' t' p).
    { intros t t' p. rewrite (Sw t), <- (Sfw t'), (Sw t'). done. }
    destruct (truthy h);
      (f_equal; [f_equal; apply Hw | f_equal; f_equal; apply Hw]).
Qed.

Lemma readdir_loop_steady h entries : forall w w',
  steady w -> same_files w w' ->
  new_events w (readdir_loop h entries w) = new_events w' (readdir_loop h entries w').
Proof.
  induction entries as [|d rest IH]; intros w w' St Sf; cbn [readdir_loop].
  - unfold new_events. by rewrite !drop_all.
  - destruct (policy_step_frame h d w) as (R1 & W1 & L1 & _ & J1 & evs1 & T1 & _).
    destruct (policy_step_frame h d w') as (R1' & W1' & L1' & _ & J1' & evs1' & T1' & _).
    pose proof (policy_step_steady h d w w' St Sf) as E1.
    rewrite (new_events_app _ _ _ T1), (new_events_app _ _ _ T1') in E1. subst evs1'.
    assert (St1 : steady (policy_step h d w)) by (by apply (steady_frame w)).
    assert (Sf1 : same_files (policy_step h d w) (policy_step h d w')).
    { eapply same_files_trans; [apply same_files_sym, same_files_frame; done|].
      eapply same_files_trans; [exact Sf|]. by apply same_files_frame. }
    specialize (IH _ _ St1 Sf1).
    destruct (readdir_loop_frame h rest (policy_step h d w)) as (_ & _ & _ & _ & _ & evs2 & T2 & _).
    destruct (readdir_loop_frame h rest (policy_step h d w')) as (_ & _ & _ & _ & _ & evs2' & T2' & _).
    rewrite (new_events_app _ _ _ T2), (new_events_app _ _ _ T2') in IH. subst evs2'.
    rewrite (new_events_app w _ (evs1 ++ evs2)) by (rewrite T2, T1, <- app_assoc; done).
    rewrite (new_events_app w' _ (evs1 ++ evs2)) by (rewrite T2', T1', <- app_assoc; done).
    done.
Qed.

End ApplyProfile.

(* ----------------------------------------------------------------- *)
(** ** The loop of [main] *)

Section MainLoop.

Lemma wrap64_range z : 0 <= wrap64 z < 2 ^ 64.
Proof. unfold wrap64. apply Z.mod_pos_bound. lia. Qed.



Lemma main_iteration_unfold st w :
  main_iteration st w
  = ({| prev_idle := fst (fst (sampled st w)); prev_total := snd (fst (sampled st w));
        curr_idle := fst (fst (sampled st w)); curr_total := snd (fst (sampled st w)) |},
     apply_profile (profile_flag (classify (usage_at st w))) (world_at_apply st w)).
Proof.
  unfold main_iteration, usage_at, world_at_apply, sampled, classify, utilization.
  destruct (get_cpu_times _ _ _) as [[ci ct] w1]. cbn [fst snd idleTicks totalTicks].
  by destruct (fgt _ _).
Qed.

Lemma canonical_double m e :
  valid_binary 53 1024 (S754_finite false m e) = true ->
  Zpos m < 2 ^ 53 /\ (-1074 < e -> 2 ^ 52 <= Zpos m).
Proof.
  simpl. unfold bounded, canonical_mantissa, fexp, SpecFloat.emin.
  intros H. apply andb_true_iff in H as [Hcan _]. apply Z.eqb_eq in Hcan.
  pose proof (digits2_pos_bounds m) as [Hlo Hhi].
  split.
  - eapply Z.lt_le_trans; [exact Hhi|]. apply Z.pow_le_mono_r; clear -Hcan; lia.
  - intros He.
    assert (Zpos (digits2_pos m) = 53) as Hd by (clear -Hcan He; lia).
    rewrite Hd in Hlo. exact Hlo.
Qed.

Lemma fgt_40_above u :
  valid_binary 53 1024 u = true ->
  fgt u (b64_of_Z 40) = true <-> above 40 u.
Proof.
  intros Hv. unfold fgt, SFltb.
  change (b64_of_Z 40) with (S754_finite false 5629499534213120 (-47)).
  destruct u as [s|s| |s m e].
  { cbn [SFcompare above]. split; [intros H; discriminate H|intros []]. }
  { destruct s; cbn [SFcompare above]; split;
      first [intros H; discriminate H | intros []; reflexivity | intros []; exact I | intros _; exact I | intros _; reflexivity]. }
  { cbn [SFcompare above]. split; [intros H; discriminate H|intros []]. }
  destruct s.
  { cbn [SFcompare above]. split; [intros H; discriminate H|intros []]. }
  cbn [SFcompare above].
  destruct (canonical_double m e Hv) as [Hhi Hlo].
  destruct (Z.compare_spec (-47) e) as [<-|Hlt|Hgt].
  - change (Z.max 0 (- -47)) with 47. change (Z.max 0 (-47)) with 0.
    rewrite Pos.compare_cont_spec. cbn [Pos.switch_Eq].
    rewrite Z.pow_0_r, Z.mul_1_r.
    change (40 * 2 ^ 47) with (Zpos 5629499534213120).
    clear Hv Hhi Hlo.
    change (Z.pos 5629499534213120 < Z.pos m) with ((5629499534213120 ?= m)%positive = Lt).
    destruct (5629499534213120 ?= m)%positive; split; intros H'; (discriminate H' || reflexivity).
  - split; [intros _|reflexivity].
    specialize (Hlo ltac:(lia)).
    destruct (Z_le_gt_dec 0 e).
    + rewrite Z.max_l, Z.max_r by lia.
      assert (0 < 2 ^ e) by (apply Z.pow_pos_nonneg; lia).
      rewrite Z.pow_0_r. 
      assert (Zpos m * 1 <= Zpos m * 2 ^ e) by (apply Z.mul_le_mono_nonneg_l; lia).
      assert (40 * 1 < 2 ^ 52) by reflexivity. lia.
    + rewrite Z.max_r, Z.max_l by lia.
      assert (2 ^ (- e) <= 2 ^ 46) by (apply Z.pow_le_mono_r; lia).
      rewrite Z.pow_0_r.
      assert (64 * 2 ^ 46 = 2 ^ 52) as Hp by reflexivity. lia.
  - split; [intros H; discriminate H|intros H]. exfalso.
    rewrite Z.max_r, Z.max_l in H by lia.
    assert (2 ^ 48 <= 2 ^ (- e)) by (apply Z.pow_le_mono_r; lia).
    rewrite Z.pow_0_r in H.
    assert (32 * 2 ^ 48 = 2 ^ 53) as Hp by reflexivity. lia.
Qed.

End MainLoop.

(* ----------------------------------------------------------------- *)
(** ** Resolution from a readable table *)

Section ResolveTable.

Lemma sorted_lookup_le (s : list Z) : StronglySorted Z.le s ->
  forall i j x y, s !! i = Some x -> s !! j = Some y -> (i <= j)%nat -> x <= y.
Proof.
  induction 1 as [|a s Hs IH Ha]; intros i j x y Hi Hj Hij; [done|].
  destruct i as [|i], j as [|j]; simpl in *; try lia.
  - injection Hi as <-. injection Hj as <-. lia.
  - injection Hi as <-. rewrite Forall_forall in Ha. apply Ha.
    by eapply list_elem_of_lookup_2.
  - eapply IH; eauto. lia.
Qed.

(** What a readable table gives for the three modes, in terms of the sorted
    array. *)
Lemma resolve_table path mode w content buf :
  readable w (now w) (table_of path) = Some content ->
  fgets MAX_FREQ_BUF content = Some buf ->
  parse_loop FREQS_LEN buf <> [] ->
  well_formed mode = true ->
  let s := bubble_sort (parse_loop FREQS_LEN buf) in
  let count := Z.of_nat (length s) in
  let i := match mode with
           | AbsoluteMax => count - 1
           | AbsoluteMin => 0
           | Percentile p => percent_index count p
           end in
  1 <= count <= 100 /\ 0 <= i <= count - 1
  /\ exists v, fst (resolve path mode w) = v /\ s !! Z.to_nat i = Some v.
Proof.
  intros Hr Hg Hne Hwf s count i.
  assert (Hc : 1 <= count <= 100) by apply (pick_freq_nonempty 0 buf f_0_0 0 0 Hne).
  assert (Hi : 0 <= i <= count - 1).
  { subst i. destruct mode as [| |p]; try lia.
    simpl in Hwf. apply andb_true_iff in Hwf as [Hn Hu].
    by apply percent_index_floor. }
  split; [done|]. split; [done|].
  destruct (array_get_in_range s i ltac:(lia)) as (v & Hv & Hl & _).
  exists v. split; [|done].
  destruct mode as [| |p]; cbn [resolve];
    rewrite (get_target_freq_table _ _ _ _ _ _ _ Hr Hg); cbn [fst].
  - destruct (pick_freq_nonempty (wrap_int (junk w)) buf f_1_0 1 0 Hne) as [_ ->].
    change (truthy 1) with true. cbv iota.
    unfold element. subst i s count. by rewrite Hv.
  - destruct (pick_freq_nonempty (wrap_int (junk w)) buf f_0_0 0 1 Hne) as [_ ->].
    change (truthy 0) with false. change (truthy 1) with true. cbv iota.
    unfold element. subst i s count. by rewrite Hv.
  - destruct (pick_freq_nonempty (wrap_int (junk w)) buf p 0 0 Hne) as [_ ->].
    change (truthy 0) with false. cbv iota.
    unfold element. subst i s count. by rewrite Hv.
Qed.


End ResolveTable.

(* ----------------------------------------------------------------- *)
(** ** The tokens of a line *)

Section Tokens.

Lemma skip_delims_length s : (String.length (skip_delims s) <= String.length s)%nat.
Proof. induction s as [|c s IH]; simpl; [lia|]. destruct (is_delim c); simpl; lia. Qed.

Lemma token_end_length s :
  (String.length (snd (token_end s)) <= Nat.pred (String.length s))%nat.
Proof.
  induction s as [|c s IH]; simpl; [lia|].
  destruct (is_delim c); simpl; [lia|].
  destruct (token_end s) as [t r]. simpl in *. lia.
Qed.

Lemma strtok_shorter s token rest :
  strtok s = Some (token, rest) -> (String.length rest < String.length s)%nat.
Proof.
  unfold strtok. pose proof (skip_delims_length s) as H1.
  destruct (skip_delims s) as [|c s1] eqn:E; [done|].
  intros [= H]. pose proof (token_end_length (String c s1)) as H2.
  assert (H3 : snd (token_end (String c s1)) = rest) by exact (f_equal snd H).
  rewrite H3 in H2. cbn [String.length Nat.pred] in *. lia.
Qed.

(** The parsing loop converts the first hundred tokens of the line. *)
Lemma parse_loop_tokens room : forall fuel s,
  (String.length s <= fuel)%nat ->
  parse_loop room s = atoi <$> take room (tokens_upto fuel s).
Proof.
  induction room as [|room IH]; intros fuel s Hf; [done|].
  cbn [parse_loop]. destruct (strtok s) as [[token rest]|] eqn:E.
  - pose proof (strtok_shorter _ _ _ E).
    destruct fuel as [|fuel]; [lia|]. cbn [tokens_upto]. rewrite E.
    cbn [take fmap list_fmap]. f_equal. apply IH. lia.
  - destruct fuel; cbn [tokens_upto]; rewrite ?E; done.
Qed.

Lemma parse_loop_line_tokens room s :
  parse_loop room s = atoi <$> take room (line_tokens s).
Proof. by apply parse_loop_tokens. Qed.

End Tokens.

(* ----------------------------------------------------------------- *)
(** ** Order of the tokens, and unreadable samples *)

Section Support.

Lemma table_tokens_parse content buf :
  fgets MAX_FREQ_BUF content = Some buf ->
  parse_loop FREQS_LEN buf = atoi <$> take FREQS_LEN (table_tokens content).
Proof. intros H. unfold table_tokens. rewrite H. apply parse_loop_line_tokens. Qed.

(** What a readable table resolves to depends on the parsed values up to
    their order only. *)
Lemma resolve_perm path mode w w' content content' :
  well_formed mode = true ->
  readable w (now w) (table_of path) = Some content ->
  readable w' (now w') (table_of path) = Some content' ->
  (forall buf buf', fgets MAX_FREQ_BUF content = Some buf ->
                    fgets MAX_FREQ_BUF content' = Some buf' ->
                    parse_loop FREQS_LEN buf ≡ₚ parse_loop FREQS_LEN buf') ->
  (fgets MAX_FREQ_BUF content = None ->
   forall buf', fgets MAX_FREQ_BUF content' = Some buf' -> parse_loop FREQS_LEN buf' = []) ->
  (fgets MAX_FREQ_BUF content' = None ->
   forall buf, fgets MAX_FREQ_BUF content = Some buf -> parse_loop FREQS_LEN buf = []) ->
  fst (resolve path mode w) = fst (resolve path mode w').
Proof.
  intros Hwf Hr Hr' Hboth Hleft Hright.
  assert (Hzero : forall w0 c b, readable w0 (now w0) (table_of path) = Some c ->
                    fgets MAX_FREQ_BUF c = Some b -> parse_loop FREQS_LEN b = [] ->
                    fst (resolve path mode w0) = 0).
  { intros w0 c b H1 H2 H3.
    destruct mode; cbn [resolve];
      rewrite (get_target_freq_table _ _ _ _ _ _ _ H1 H2); by apply pick_freq_empty. }
  assert (Hnone : forall w0 c, readable w0 (now w0) (table_of path) = Some c ->
                    fgets MAX_FREQ_BUF c = None -> fst (resolve path mode w0) = 0).
  { intros w0 c H1 H2.
    destruct mode; cbn [resolve]; by rewrite (get_target_freq_empty_file _ _ _ _ _ _ H1 H2). }
  destruct (fgets MAX_FREQ_BUF content) as [buf|] eqn:Hg,
           (fgets MAX_FREQ_BUF content') as [buf'|] eqn:Hg'.
  - specialize (Hboth buf buf' eq_refl eq_refl).
    destruct (decide (parse_loop FREQS_LEN buf = [])) as [He|Hne].
    + rewrite (Hzero w content buf Hr Hg He). symmetry.
      apply (Hzero w' content' buf' Hr' Hg').
      rewrite He in Hboth. by apply Permutation_nil_l in Hboth.
    + assert (Hne' : parse_loop FREQS_LEN buf' <> []).
      { intros E. rewrite E in Hboth. by apply Permutation_nil_r in Hboth. }
      destruct (resolve_table path mode w content buf Hr Hg Hne Hwf) as (_ & _ & v & <- & Hl).
      destruct (resolve_table path mode w' content' buf' Hr' Hg' Hne' Hwf) as (_ & _ & v' & <- & Hl').
      cbn zeta in *.
      assert (Hs : bubble_sort (parse_loop FREQS_LEN buf) = bubble_sort (parse_loop FREQS_LEN buf')).
      { apply sorted_is_bubble_sort.
        - by rewrite bubble_sort_perm.
        - apply StronglySorted_Sorted, bubble_sort_sorted. }
      rewrite Hs in Hl. rewrite Hl in Hl'. by injection Hl'.
  - rewrite (Hnone w' content' Hr' Hg').
    apply (Hzero w content buf Hr Hg). by apply Hright.
  - rewrite (Hnone w content Hr Hg). symmetry.
    apply (Hzero w' content' buf' Hr' Hg'). by apply Hleft.
  - by rewrite (Hnone w content Hr Hg), (Hnone w' content' Hr' Hg').
Qed.

Lemma get_cpu_times_unreadable idle total w :
  stat_line w (now w) = None -> get_cpu_times idle total w = (idle, total, tick w).
Proof. intros H. unfold get_cpu_times, fopen_stat. by rewrite H. Qed.

Lemma iteration_events st w :
  exists evs, trace (snd (main_iteration st w)) = trace w ++ EvSleep MONITOR_INTERVAL_SEC :: evs
              /\ forallb is_write evs = true.
Proof.
  rewrite main_iteration_unfold. cbn [snd].
  destruct (apply_profile_frame (profile_flag (classify (usage_at st w))) (world_at_apply st w))
    as (_ & _ & _ & _ & _ & evs & T & A).
  exists evs. split; [|done]. rewrite T.
  unfold world_at_apply, sampled, get_cpu_times, fopen_stat.
  destruct (stat_line _ _); cbn [trace tick sleep emit]; by rewrite <- app_assoc.
Qed.


End Support.

(* ================================================================= *)
(** * The claims of the specification *)






(** C3. On a readable table with at least one token, whatever sorted
    arrangement [s] of the parsed values one takes, AbsoluteMax returns the
    last element of [s], AbsoluteMin the first, and Percentile(p) the
    element at index [floor(count * p)] (the product being the [float]
    product) capped at [count - 1]; on 100 200 300 400 this gives 400 and
    300 for the percentiles 0.75 and 0.50, 400 for AbsoluteMax and 100 for
    AbsoluteMin. *)
Theorem C3_resolve_sorted_table
    (path : string) (w : world) (content buf : string) (s : list Z) (p : spec_float) :
  readable w (now w) (table_of path) = Some content ->
  fgets MAX_FREQ_BUF content = Some buf ->
  s ≡ₚ parse_loop FREQS_LEN buf -> Sorted Z.le s -> s <> [] ->
  is_number p = true -> in_unit_interval p = true ->
  let count := Z.of_nat (length s) in
  last s = Some (fst (resolve path AbsoluteMax w))
  /\ head s = Some (fst (resolve path AbsoluteMin w))
  /\ s !! Z.to_nat (Z.min (floor (b32_mul (b32_of_Z count) p)) (count - 1))
     = Some (fst (resolve path (Percentile p) w))
  /\ fst (resolve policy0 (Percentile f_0_75) table4) = 400
  /\ fst (resolve policy0 (Percentile f_0_50) table4) = 300
  /\ fst (resolve policy0 AbsoluteMax table4) = 400
  /\ fst (resolve policy0 AbsoluteMin table4) = 100.
Proof.
  intros Hr Hg Hperm Hsorted Hne Hn Hu count.
  assert (Hs : s = bubble_sort (parse_loop FREQS_LEN buf))
    by (by apply sorted_is_bubble_sort).
  assert (Hfreqs : parse_loop FREQS_LEN buf <> []).
  { intros E. rewrite E in Hperm. by apply Permutation_nil_r in Hperm. }
  destruct (resolve_table path AbsoluteMax w content buf Hr Hg Hfreqs eq_refl)
    as (Hc & _ & v1 & <- & Hl1).
  destruct (resolve_table path AbsoluteMin w content buf Hr Hg Hfreqs eq_refl)
    as (_ & _ & v2 & <- & Hl2).
  destruct (resolve_table path (Percentile p) w content buf Hr Hg Hfreqs)
    as (_ & _ & v3 & <- & Hl3); [simpl; by rewrite Hn, Hu|].
  cbn zeta in *. rewrite <- Hs in *. fold count in Hc, Hl1, Hl3.
  split_and!.
  - rewrite last_lookup, <- Hl1. f_equal. lia.
  - rewrite head_lookup. exact Hl2.
  - destruct (percent_index_floor count p Hc Hn Hu) as [<- _]. exact Hl3.
  - vm_compute. reflexivity.
  - vm_compute. reflexivity.
  - vm_compute. reflexivity.
  - vm_compute. reflexivity.
Qed.

Lemma C3_witness :
  last [100; 200; 300; 400] = Some (fst (resolve policy0 AbsoluteMax table4_shuffled))
  /\ head [100; 200; 300; 400] = Some (fst (resolve policy0 AbsoluteMin table4_shuffled))
  /\ [100; 200; 300; 400] !! 3%nat
     = Some (fst (resolve policy0 (Percentile f_0_75) table4_shuffled)).
Proof.
  pose proof (C3_resolve_sorted_table policy0 table4_shuffled
                ("300 100 400 200 " +:+ nl) ("300 100 400 200 " +:+ nl)
                [100; 200; 300; 400] f_0_75 eq_refl eq_refl) as H.
  destruct H as (H1 & H2 & H3 & _);
    [| | discriminate | reflexivity | reflexivity | split_and!; assumption].
  - change (parse_loop FREQS_LEN ("300 100 400 200 " +:+ nl)) with [300; 100; 400; 200].
    apply (Permutation_trans (l' := [100; 300; 400; 200])); [|apply perm_swap].
    apply perm_skip.
    apply (Permutation_trans (l' := [300; 200; 400])); [|apply perm_skip, perm_swap].
    apply perm_swap.
  - repeat constructor; lia.
Defined.

(** C4. The loop applies HighLoad exactly when the usage it computed is
    strictly greater than 40 (by the comparison of [double], which for a
    canonical value is the comparison of the numbers), and LowLoad
    otherwise; a usage of exactly 40.0 gives LowLoad. *)
Theorem C4_threshold :
  (forall st w,
      snd (main_iteration st w)
      = apply_profile (profile_flag (classify (usage_at st w))) (world_at_apply st w))
  /\ (forall u, classify u = HighLoad <-> SFltb (b64_of_Z 40) u = true)
  /\ (forall u, classify u = LowLoad <-> SFltb (b64_of_Z 40) u = false)
  /\ (forall u, valid_binary 53 1024 u = true -> (classify u = HighLoad <-> above 40 u))
  /\ classify (b64_of_Z 40) = LowLoad
  /\ utilization {| idleTicks := 0; totalTicks := 0 |}
                 {| idleTicks := 120; totalTicks := 200 |} = b64_of_Z 40
  /\ classify (b64_of_Z 55) = HighLoad
  /\ classify (b64_of_Z 30) = LowLoad.
Proof.
  split_and!.
  - intros st w. by rewrite main_iteration_unfold.
  - intros u. unfold classify, fgt, CPU_USAGE_THRESHOLD.
    destruct (SFltb (b64_of_Z 40) u); split; intros H; (reflexivity || discriminate H).
  - intros u. unfold classify, fgt, CPU_USAGE_THRESHOLD.
    destruct (SFltb (b64_of_Z 40) u); split; intros H; (reflexivity || discriminate H).
  - intros u Hv. rewrite <- (fgt_40_above u Hv). unfold classify, CPU_USAGE_THRESHOLD.
    destruct (fgt u (b64_of_Z 40)); split; intros H; (reflexivity || discriminate H).
  - vm_compute. reflexivity.
  - vm_compute. reflexivity.
  - vm_compute. reflexivity.
  - vm_compute. reflexivity.
Qed.

(** C5. When the table of a domain cannot be opened, AbsoluteMax returns
    the integer the fallback file holds, when that file can be opened, and
    AbsoluteMin and every Percentile return 0 whatever the fallback; with a
    fallback of 1200000, AbsoluteMax gives 1200000 and the others 0. *)
Theorem C5_unreadable_table (path : string) (w : world) :
  readable w (now w) (table_of path) = None ->
  (forall content v,
      readable w (S (now w)) (fallback_of path) = Some content ->
      scan_d content = Some v ->
      fst (resolve path AbsoluteMax w) = v)
  /\ fst (resolve path AbsoluteMin w) = 0
  /\ (forall p, fst (resolve path (Percentile p) w) = 0)
  /\ fst (resolve policy0 AbsoluteMax fallback_only) = 1200000
  /\ fst (resolve policy0 AbsoluteMin fallback_only) = 0
  /\ (forall p, fst (resolve policy0 (Percentile p) fallback_only) = 0).
Proof.
  intros Hr. split_and!.
  - intros content v Hf Hv. cbn [resolve].
    rewrite (get_target_freq_fallback path f_1_0 1 0 w Hr eq_refl). cbn [fst].
    by rewrite Hf, Hv.
  - cbn [resolve]. by rewrite (get_target_freq_no_table _ _ _ _ Hr).
  - intros p. cbn [resolve]. by rewrite (get_target_freq_no_table _ _ _ _ Hr).
  - by vm_compute.
  - by vm_compute.
  - intros p. cbn [resolve]. by rewrite get_target_freq_no_table.
Qed.

Lemma C5_witness :
  fst (resolve policy0 AbsoluteMax fallback_only) = 1200000
  /\ fst (resolve policy0 AbsoluteMin fallback_only) = 0.
Proof.
  pose proof (C5_unreadable_table policy0 fallback_only eq_refl) as (H1 & H2 & _).
  split; [|exact H2].
  exact (H1 ("1200000" +:+ nl) 1200000 eq_refl eq_refl).
Defined.

(** C6. A [policy] entry one of whose absolute bounds resolves to 0 gets no
    write; the loop goes on with the entries that remain, and in a steady
    world these get exactly the writes they would get had the skipped entry
    not been met. *)
Theorem C6_unresolved_domain_skipped
    (is_high_load : Z) (d_name : string) (rest : list string) (w : world) :
  has_prefix "policy" d_name = true ->
  let path := policy_path_of d_name in
  let r1 := resolve path AbsoluteMax w in
  let r2 := resolve path AbsoluteMin (snd r1) in
  fst r1 = 0 \/ fst r2 = 0 ->
  new_events w (policy_step is_high_load d_name w) = []
  /\ trace (policy_step is_high_load d_name w) = trace w
  /\ readdir_loop is_high_load (d_name :: rest) w
     = readdir_loop is_high_load rest (snd r2)
  /\ (steady w ->
      new_events w (readdir_loop is_high_load (d_name :: rest) w)
      = new_events w (readdir_loop is_high_load rest w)).
Proof.
  intros Hp path r1 r2 Hz.
  pose proof (policy_step_skipped is_high_load d_name w Hp Hz) as Hs.
  cbn zeta in Hs. fold path r1 r2 in Hs.
  pose proof (get_target_freq_frame path f_1_0 1 0 w) as (R1 & W1 & L1 & _ & J1 & T1 & _).
  pose proof (get_target_freq_frame path f_0_0 0 1 (snd r1)) as (R2 & W2 & L2 & _ & J2 & T2 & _).
  change (get_target_freq path f_1_0 1 0 w) with r1 in *.
  change (get_target_freq path f_0_0 0 1 (snd r1)) with r2 in *.
  cbn zeta in *.
  assert (Ht : trace (snd r2) = trace w) by congruence.
  split_and!.
  - rewrite Hs. apply new_events_app. by rewrite app_nil_r.
  - by rewrite Hs.
  - cbn [readdir_loop]. by rewrite Hs.
  - intros St. cbn [readdir_loop]. rewrite Hs.
    unfold new_events at 1. rewrite <- Ht.
    change (drop (length (trace (snd r2))) (trace (readdir_loop is_high_load rest (snd r2))))
      with (new_events (snd r2) (readdir_loop is_high_load rest (snd r2))).
    symmetry. apply readdir_loop_steady; [done|].
    apply same_files_frame; congruence.
Qed.

Lemma C6_witness :
  new_events two_domains (policy_step 1 "policy0" two_domains) = []
  /\ new_events two_domains (readdir_loop 1 ["policy0"; "policy1"] two_domains)
     = [EvWrite (max_node_of policy1) "1200000" true;
        EvWrite (min_node_of policy1) "1200000" true].
Proof.
  pose proof (C6_unresolved_domain_skipped 1 "policy0" ["policy1"] two_domains
                eq_refl (or_introl eq_refl)) as (H1 & _ & _ & H4).
  split; [exact H1|].
  rewrite H4; [by vm_compute|]. by split_and!.
Defined.

(** C7, as amended. When [/proc/stat] cannot be opened, the sampler leaves
    the two counters of its caller as they were. The baseline then stays
    zero/zero; and in an iteration whose current counters equal the previous
    ones, which every iteration establishes for the next, the sample is the
    previous one, the usage is 0.0, the low-load profile is applied, the
    counters are unchanged, and the iteration prints nothing. *)
Theorem C7_unreadable_sample_keeps_counters :
  (forall idle total w,
      stat_line w (now w) = None ->
      get_cpu_times idle total w = (idle, total, tick w))
  /\ (forall w,
        stat_line w (now w) = None ->
        fst (main_start w)
        = {| prev_idle := 0; prev_total := 0; curr_idle := 0; curr_total := 0 |})
  /\ (forall st w,
        curr_idle (fst (main_iteration st w)) = prev_idle (fst (main_iteration st w))
        /\ curr_total (fst (main_iteration st w)) = prev_total (fst (main_iteration st w)))
  /\ (forall st w,
        curr_idle st = prev_idle st -> curr_total st = prev_total st ->
        stat_line w (S (now w)) = None ->
        fst (sampled st w) = (prev_idle st, prev_total st)
        /\ usage_at st w = pos_zero
        /\ main_iteration st w = (st, apply_profile 0 (world_at_apply st w))
        /\ forall text, EvPrint text ∉ new_events w (snd (main_iteration st w))).
Proof.
  split_and!.
  - apply get_cpu_times_unreadable.
  - intros w H. unfold main_start. by rewrite get_cpu_times_unreadable.
  - intros st w. rewrite main_iteration_unfold. done.
  - intros st w Hi Ht Hs.
    assert (Hsample : sampled st w
                      = (prev_idle st, prev_total st, tick (sleep MONITOR_INTERVAL_SEC w))).
    { unfold sampled. rewrite get_cpu_times_unreadable by exact Hs. by rewrite Hi, Ht. }
    assert (Hu : usage_at st w = pos_zero).
    { unfold usage_at. rewrite Hsample. unfold utilization.
      cbn [totalTicks idleTicks]. by rewrite !Z.sub_diag. }
    split_and!.
    + by rewrite Hsample.
    + exact Hu.
    + rewrite main_iteration_unfold, Hu, Hsample. cbn [fst snd].
      change (profile_flag (classify pos_zero)) with 0.
      f_equal. destruct st; simpl in *; congruence.
    + intros text Hin.
      destruct (iteration_events st w) as (evs & T & A).
      rewrite (new_events_app _ _ _ T) in Hin.
      apply elem_of_cons in Hin as [Hin|Hin]; [discriminate Hin|].
      rewrite forallb_forall in A. apply list_elem_of_In, A in Hin. discriminate Hin.
Qed.

Lemma C7_witness :
  fst (sampled (fst (main 1 stat_then_gone)) (snd (main 1 stat_then_gone))) = (60, 300)
  /\ usage_at (fst (main 1 stat_then_gone)) (snd (main 1 stat_then_gone)) = pos_zero.
Proof.
  pose proof (proj2 (proj2 (proj2 C7_unreadable_sample_keeps_counters))
                (fst (main 1 stat_then_gone)) (snd (main 1 stat_then_gone))
                eq_refl eq_refl eq_refl) as (H1 & H2 & _).
  split; [exact H1|exact H2].
Defined.

(** C7, as stated, fails twice. After two good readings (idle 60 of 300 the
    last), the sample of an unreadable [/proc/stat] is again idle 60 of 300,
    not zero/zero; and after a good baseline (idle 50 of 200), a first
    sample that fails is zero/zero but the usage computed from it is 100.0,
    not 0.0. *)
Lemma C7_counterexample :
  (stat_line (snd (main 1 stat_then_gone)) (S (now (snd (main 1 stat_then_gone)))) = None
   /\ fst (sampled (fst (main 1 stat_then_gone)) (snd (main 1 stat_then_gone))) = (60, 300))
  /\ (stat_line (snd (main 0 stat_once)) (S (now (snd (main 0 stat_once)))) = None
      /\ fst (sampled (fst (main 0 stat_once)) (snd (main 0 stat_once))) = (0, 0)
      /\ usage_at (fst (main 0 stat_once)) (snd (main 0 stat_once)) = b64_of_Z 100).
Proof. split_and!; vm_compute; reflexivity. Qed.

(** C8, as amended. In a world whose files do not change, resolving a
    second time gives the value of the first, whatever the table and the
    mode; and two readable tables whose token lists are permutations of one
    another, with at most 100 tokens, resolve to the same value in every
    mode of the contract. *)
Theorem C8_order_independent_within_cap :
  (forall (path : string) (mode : Mode) (w : world),
      steady w ->
      fst (resolve path mode (snd (resolve path mode w))) = fst (resolve path mode w))
  /\ (forall (path : string) (mode : Mode) (w w' : world) (content content' : string),
      well_formed mode = true ->
      readable w (now w) (table_of path) = Some content ->
      readable w' (now w') (table_of path) = Some content' ->
      table_tokens content ≡ₚ table_tokens content' ->
      (length (table_tokens content) <= FREQS_LEN)%nat ->
      fst (resolve path mode w) = fst (resolve path mode w')).
Proof.
  split.
  - intros path mode w St. symmetry.
    destruct mode; cbn [resolve]; apply get_target_freq_steady; try done;
      apply same_files_frame; apply get_target_freq_frame.
  - intros path mode w w' content content' Hwf Hr Hr' Hperm Hlen.
    assert (Hlen' : (length (table_tokens content') <= FREQS_LEN)%nat)
      by (by rewrite <- Hperm).
    apply (resolve_perm path mode w w' content content' Hwf Hr Hr').
    + intros buf buf' Hg Hg'.
      rewrite (table_tokens_parse _ _ Hg), (table_tokens_parse _ _ Hg').
      rewrite !take_ge by done. by apply fmap_Permutation.
    + intros Hg buf' Hg'. rewrite (table_tokens_parse _ _ Hg').
      unfold table_tokens in Hperm at 1. rewrite Hg in Hperm.
      apply Permutation_nil_l in Hperm. by rewrite <- Hperm.
    + intros Hg' buf Hg. rewrite (table_tokens_parse _ _ Hg).
      unfold table_tokens in Hperm at 2. rewrite Hg' in Hperm.
      apply Permutation_nil_r in Hperm. by rewrite Hperm.
Qed.

Lemma C8_witness :
  fst (resolve policy0 (Percentile f_0_50)
         (snd (resolve policy0 (Percentile f_0_50) table4)))
  = fst (resolve policy0 (Percentile f_0_50) table4)
  /\ fst (resolve policy0 (Percentile f_0_50) table4)
     = fst (resolve policy0 (Percentile f_0_50) table4_shuffled).
Proof.
  split; [apply (proj1 C8_order_independent_within_cap); by split_and!|].
  refine (proj2 C8_order_independent_within_cap policy0 (Percentile f_0_50)
                table4 table4_shuffled
                ("100 200 300 400" +:+ nl) ("300 100 400 200 " +:+ nl)
                eq_refl eq_refl eq_refl _ _).
  - change (table_tokens ("100 200 300 400" +:+ nl)) with ["100"; "200"; "300"; "400"].
    change (table_tokens ("300 100 400 200 " +:+ nl)) with ["300"; "100"; "400"; "200"].
    apply (Permutation_trans (l' := ["100"; "300"; "400"; "200"])); [|apply perm_swap].
    apply perm_skip.
    apply (Permutation_trans (l' := ["300"; "200"; "400"])); [|apply perm_skip, perm_swap].
    apply perm_swap.
  - vm_compute. lia.
Defined.

(** C8, as stated, fails beyond the hundred cells of the array: of 101
    tokens, moving the smallest from the last place to the first changes
    the minimum that is resolved. *)
Lemma C8_counterexample :
  table_tokens (fives +:+ " 1" +:+ nl) ≡ₚ table_tokens ("1 " +:+ fives +:+ nl)
  /\ fst (resolve policy0 AbsoluteMin one_last) = 5
  /\ fst (resolve policy0 AbsoluteMin one_first) = 1.
Proof.
  split_and!.
  - assert (table_tokens (fives +:+ " 1" +:+ nl) = repeat "5" 100 ++ ["1"]) as ->
      by (vm_compute; reflexivity).
    assert (table_tokens ("1 " +:+ fives +:+ nl) = ["1"] ++ repeat "5" 100) as ->
      by (vm_compute; reflexivity).
    apply Permutation_app_comm.
  - vm_compute. reflexivity.
  - vm_compute. reflexivity.
Qed.

(** C9. When the two absolute bounds of a [policy] entry resolve and the
    percentile then resolves to 0, the entry is not skipped: the second
    write carries the text ["0"], to the minimum node under a high load and
    to the maximum node under a low load. *)
Theorem C9_zero_target_written (is_high_load : Z) (d_name : string) (w : world) :
  has_prefix "policy" d_name = true ->
  let path := policy_path_of d_name in
  let r1 := resolve path AbsoluteMax w in
  let r2 := resolve path AbsoluteMin (snd r1) in
  let r75 := resolve path (Percentile f_0_75) (snd r2) in
  let r50 := resolve path (Percentile f_0_50) (snd r2) in
  fst r1 <> 0 -> fst r2 <> 0 ->
  (is_high_load <> 0 -> fst r75 = 0 ->
     new_events w (policy_step is_high_load d_name w)
     = [EvWrite (max_node_of path) (decimal (fst r1))
                (writable w (now (snd r75)) (max_node_of path));
        EvWrite (min_node_of path) "0"
                (writable w (S (now (snd r75))) (min_node_of path))])
  /\ (is_high_load = 0 -> fst r50 = 0 ->
     new_events w (policy_step is_high_load d_name w)
     = [EvWrite (min_node_of path) (decimal (fst r2))
                (writable w (now (snd r50)) (min_node_of path));
        EvWrite (max_node_of path) "0"
                (writable w (S (now (snd r50))) (max_node_of path))]).
Proof.
  intros Hp path r1 r2 r75 r50 H1 H2.
  pose proof (policy_step_resolved is_high_load d_name w Hp H1 H2) as Hs.
  cbn zeta in Hs. fold path r1 r2 in Hs.
  split.
  - intros Hh Hz. apply truthy_true in Hh. rewrite Hh in Hs.
    fold r75 in Hs. rewrite Hz in Hs. exact (new_events_app _ _ _ Hs).
  - intros Hl Hz. apply truthy_false in Hl. rewrite Hl in Hs.
    fold r50 in Hs. rewrite Hz in Hs. exact (new_events_app _ _ _ Hs).
Qed.

Lemma C9_witness :
  new_events vanishing (policy_step 1 "policy0" vanishing)
  = [EvWrite (max_node_of policy0) "400" true; EvWrite (min_node_of policy0) "0" true]
  /\ new_events vanishing (policy_step 0 "policy0" vanishing)
  = [EvWrite (min_node_of policy0) "100" true; EvWrite (max_node_of policy0) "0" true].
Proof.
  split.
  - exact (proj1 (C9_zero_target_written 1 "policy0" vanishing eq_refl
                    ltac:(vm_compute; discriminate) ltac:(vm_compute; discriminate))
                 ltac:(discriminate) eq_refl).
  - exact (proj2 (C9_zero_target_written 0 "policy0" vanishing eq_refl
                    ltac:(vm_compute; discriminate) ltac:(vm_compute; discriminate))
                 eq_refl eq_refl).
Defined.

(** C10. On a readable table with at least one token and for a percentile
    [p] of the unit interval, the product [count * p] is finite, the index
    computed from it lies between 0 and [count - 1], the array is read
    inside its bounds, and the value returned is one of the parsed
    values. *)
Theorem C10_index_in_bounds
    (path : string) (w : world) (content buf : string) (p : spec_float) :
  readable w (now w) (table_of path) = Some content ->
  fgets MAX_FREQ_BUF content = Some buf ->
  parse_loop FREQS_LEN buf <> [] ->
  is_number p = true -> in_unit_interval p = true ->
  let freqs := parse_loop FREQS_LEN buf in
  let count := Z.of_nat (length freqs) in
  let index := percent_index count p in
  is_finite (b32_mul (b32_of_Z count) p) = true
  /\ 0 <= index <= count - 1
  /\ array_get (bubble_sort freqs) index = Some (fst (resolve path (Percentile p) w))
  /\ fst (resolve path (Percentile p) w) ∈ freqs.
Proof.
  intros Hr Hg Hne Hn Hu freqs count index.
  destruct (resolve_table path (Percentile p) w content buf Hr Hg Hne)
    as (Hc & Hi & v & <- & Hl); [simpl; by rewrite Hn, Hu|].
  cbn zeta in *.
  assert (Hlen : length (bubble_sort freqs) = length freqs)
    by apply Permutation_length, bubble_sort_perm.
  fold freqs in Hc, Hi, Hl. rewrite Hlen in Hc, Hi, Hl. fold count in Hc, Hi, Hl.
  fold index in Hi, Hl.
  split_and!; try lia.
  - by apply product_finite.
  - unfold array_get. destruct (Z.ltb_spec index 0); [lia|done].
  - rewrite <- (bubble_sort_perm freqs). by eapply list_elem_of_lookup_2.
Qed.

Lemma C10_witness :
  0 <= percent_index 4 f_0_75 <= 3
  /\ fst (resolve policy0 (Percentile f_0_75) table4) ∈ [100; 200; 300; 400].
Proof.
  pose proof (C10_index_in_bounds policy0 table4 ("100 200 300 400" +:+ nl)
                ("100 200 300 400" +:+ nl) f_0_75 eq_refl eq_refl
                ltac:(vm_compute; discriminate) eq_refl eq_refl) as (_ & H2 & _ & H4).
  split; [exact H2|exact H4].
Defined.

(* ================================================================= *)
(** * Further properties of the program *)

(* ----------------------------------------------------------------- *)
(** ** Supporting lemmas *)

Section FurtherSupport.

Lemma plain_cons c s :
  plain (String c s) = true -> is_delim c = false /\ Ascii.eqb c NUL = false /\ plain s = true.
Proof.
  cbn [plain]. intros H. apply andb_true_iff in H as [H Hs].
  apply andb_true_iff in H as [Hd Hn].
  apply negb_true_iff in Hd. apply negb_true_iff in Hn. done.
Qed.

Lemma token_end_plain t rest :
  plain t = true -> token_end (t +:+ String " " rest) = (t, rest).
Proof.
  induction t as [|c t IH]; intros Hp; [done|].
  apply plain_cons in Hp as (Hd & _ & Hp).
  simpl. rewrite Hd, (IH Hp). done.
Qed.

Lemma strtok_token t rest :
  is_token t = true -> strtok (t +:+ String " " rest) = Some (t, rest).
Proof.
  destruct t as [|c t]; [done|]. cbn [is_token]. intros Hp.
  pose proof (token_end_plain (String c t) rest Hp) as He.
  apply plain_cons in Hp as (Hd & _ & _).
  unfold strtok. simpl skip_delims. rewrite Hd.
  f_equal. exact He.
Qed.

Lemma tokens_upto_table_line ts : forall fuel,
  Forall (fun t => is_token t = true) ts -> (length ts <= fuel)%nat ->
  tokens_upto fuel (table_line ts) = ts.
Proof.
  induction ts as [|t ts IH]; intros fuel Hts Hf.
  - by destruct fuel.
  - inversion Hts as [|? ? Ht Hts']; subst.
    destruct fuel as [|fuel]; [simpl in Hf; lia|].
    cbn [tokens_upto table_line]. rewrite (strtok_token t _ Ht).
    f_equal. apply IH; [done|simpl in Hf; lia].
Qed.

Lemma length_append (a b : string) :
  String.length (a +:+ b) = (String.length a + String.length b)%nat.
Proof. induction a as [|c a IH]; simpl; [done|]. by rewrite IH. Qed.

Lemma table_line_length ts : (length ts < String.length (table_line ts))%nat.
Proof.
  induction ts as [|t ts IH]; simpl; [lia|].
  rewrite length_append. simpl. lia.
Qed.

Lemma line_tokens_table_line ts :
  Forall (fun t => is_token t = true) ts -> line_tokens (table_line ts) = ts.
Proof.
  intros Hts. apply tokens_upto_table_line; [done|].
  pose proof (table_line_length ts). lia.
Qed.

Lemma is_token_plain t : is_token t = true -> plain t = true.
Proof. by destruct t. Qed.

Lemma read_line_plain t r n :
  plain t = true ->
  read_line (String.length t + n) (t +:+ r) = t +:+ read_line n r.
Proof.
  induction t as [|c t IH]; intros Hp; [done|].
  apply plain_cons in Hp as (Hd & _ & Hp).
  simpl.
  unfold is_delim in Hd. apply orb_false_iff in Hd as [_ Hlf].
  rewrite Hlf, (IH Hp). done.
Qed.

Lemma read_line_table_line ts : forall n,
  Forall (fun t => is_token t = true) ts ->
  (String.length (table_line ts) <= n)%nat ->
  read_line n (table_line ts) = table_line ts.
Proof.
  induction ts as [|t ts IH]; intros n Hts Hn.
  - destruct n; [simpl in Hn; lia|done].
  - inversion Hts as [|? ? Ht Hts']; subst.
    cbn [table_line] in *. rewrite length_append in Hn. cbn [String.length] in Hn.
    replace n with (String.length t + S (n - String.length t - 1))%nat by lia.
    rewrite (read_line_plain _ _ _ (is_token_plain _ Ht)).
    cbn [read_line]. change (Ascii.eqb " " LF) with false. cbv iota.
    rewrite IH; [done|done|lia].
Qed.

Lemma c_string_plain t r : plain t = true -> c_string (t +:+ r) = t +:+ c_string r.
Proof.
  induction t as [|c t IH]; intros Hp; [done|].
  apply plain_cons in Hp as (_ & Hn & Hp).
  simpl. by rewrite Hn, (IH Hp).
Qed.

Lemma c_string_table_line ts :
  Forall (fun t => is_token t = true) ts -> c_string (table_line ts) = table_line ts.
Proof.
  induction 1 as [|t ts Ht Hts IH]; [done|].
  cbn [table_line]. rewrite (c_string_plain _ _ (is_token_plain _ Ht)).
  cbn [c_string]. change (Ascii.eqb " " NUL) with false. cbv iota. by rewrite IH.
Qed.

Lemma c_string_idem s : c_string (c_string s) = c_string s.
Proof.
  induction s as [|c s IH]; [done|]. simpl.
  destruct (Ascii.eqb c NUL) eqn:E; [done|]. simpl. by rewrite E, IH.
Qed.

Lemma c_string_tail c s :
  c_string (String c s) = String c s -> Ascii.eqb c NUL = false /\ c_string s = s.
Proof.
  simpl. destruct (Ascii.eqb c NUL); [done|]. intros [= H]. done.
Qed.

Lemma skip_delims_shape s :
  c_string s = s ->
  c_string (skip_delims s) = skip_delims s
  /\ match skip_delims s with
     | String c _ => is_delim c = false
     | EmptyString => True
     end.
Proof.
  induction s as [|c s IH]; intros Hs; [done|].
  apply c_string_tail in Hs as [Hn Hs]. simpl.
  destruct (is_delim c) eqn:Hd; [by apply IH|].
  split; [|done]. simpl. by rewrite Hn, Hs.
Qed.

Lemma token_end_shape s :
  c_string s = s ->
  plain (fst (token_end s)) = true /\ c_string (snd (token_end s)) = snd (token_end s).
Proof.
  induction s as [|c s IH]; intros Hs; [done|].
  apply c_string_tail in Hs as [Hn Hs]. simpl.
  destruct (is_delim c) eqn:Hd; [done|].
  destruct (IH Hs) as [Hp Hr]. destruct (token_end s) as [t r]. simpl in *.
  by rewrite Hd, Hn, Hp.
Qed.

Lemma strtok_shape s token rest :
  c_string s = s -> strtok s = Some (token, rest) ->
  is_token token = true /\ c_string rest = rest.
Proof.
  intros Hs. unfold strtok.
  destruct (skip_delims_shape s Hs) as [Hs1 Hd].
  destruct (skip_delims s) as [|c s1]; [done|].
  intros [= H].
  destruct (token_end_shape (String c s1) Hs1) as [Hp Hr].
  assert (Ht : fst (token_end (String c s1)) = token) by exact (f_equal fst H).
  assert (Hr' : snd (token_end (String c s1)) = rest) by exact (f_equal snd H).
  rewrite Ht in Hp. rewrite Hr' in Hr. split; [|done].
  destruct token as [|c' t']; [|done].
  exfalso. simpl in Ht. rewrite Hd in Ht. by destruct (token_end s1).
Qed.

Lemma tokens_upto_shape fuel : forall s,
  c_string s = s -> Forall (fun t => is_token t = true) (tokens_upto fuel s).
Proof.
  induction fuel as [|fuel IH]; intros s Hs; [constructor|].
  cbn [tokens_upto]. destruct (strtok s) as [[token rest]|] eqn:E; [|constructor].
  destruct (strtok_shape s token rest Hs E) as [Ht Hr].
  constructor; [done|by apply IH].
Qed.

Lemma read_line_length n : forall s, (String.length (read_line n s) <= n)%nat.
Proof.
  induction n as [|n IH]; intros s; [done|].
  destruct s as [|c s]; simpl; [lia|].
  destruct (Ascii.eqb c LF); simpl; [lia|]. specialize (IH s). lia.
Qed.

Lemma c_string_length s : (String.length (c_string s) <= String.length s)%nat.
Proof.
  induction s as [|c s IH]; simpl; [lia|]. destruct (Ascii.eqb c NUL); simpl; lia.
Qed.

Lemma tokens_upto_length fuel : forall s, (length (tokens_upto fuel s) <= fuel)%nat.
Proof.
  induction fuel as [|fuel IH]; intros s; simpl; [lia|].
  destruct (strtok s) as [[token rest]|]; simpl; [|lia]. specialize (IH rest). lia.
Qed.

Lemma steady_reads w w' p :
  steady w -> same_files w w' -> readable w' (now w') p = readable w (now w) p.
Proof.
  intros (Sr & _) (Fr & _).
  rewrite <- Fr, (Sr (now w')). symmetry. apply Sr.
Qed.

Lemma steady_flags w t p : steady w -> writable w t p = writable w O p.
Proof. intros (_ & Sw & _). apply Sw. Qed.

(** The three resolutions of a step, in a steady world whose table is
    readable and holds at least one token. *)
Lemma steady_step_values (path : string) (p : spec_float) (w : world) (content buf : string) :
  steady w ->
  readable w (now w) (table_of path) = Some content ->
  fgets MAX_FREQ_BUF content = Some buf ->
  parse_loop FREQS_LEN buf <> [] ->
  is_number p = true -> in_unit_interval p = true ->
  let s := bubble_sort (parse_loop FREQS_LEN buf) in
  let count := Z.of_nat (length s) in
  let r1 := resolve path AbsoluteMax w in
  let r2 := resolve path AbsoluteMin (snd r1) in
  let r3 := resolve path (Percentile p) (snd r2) in
  1 <= count <= 100
  /\ last s = Some (fst r1) /\ head s = Some (fst r2)
  /\ s !! Z.to_nat (percent_index count p) = Some (fst r3).
Proof.
  intros St Hr Hg Hne Hn Hu s count r1 r2 r3.
  pose proof (get_target_freq_frame path f_1_0 1 0 w) as (R1 & W1 & L1 & _ & J1 & _).
  pose proof (get_target_freq_frame path f_0_0 0 1 (snd r1)) as (R2 & W2 & L2 & _ & J2 & _).
  change (get_target_freq path f_1_0 1 0 w) with r1 in *.
  change (get_target_freq path f_0_0 0 1 (snd r1)) with r2 in *.
  cbn zeta in *.
  assert (F1 : same_files w (snd r1)) by (by apply same_files_frame).
  assert (F2 : same_files w (snd r2)).
  { eapply same_files_trans; [exact F1|]. by apply same_files_frame. }
  assert (E1 : readable (snd r1) (now (snd r1)) (table_of path) = Some content)
    by (by rewrite (steady_reads w _ _ St F1)).
  assert (E2 : readable (snd r2) (now (snd r2)) (table_of path) = Some content)
    by (by rewrite (steady_reads w _ _ St F2)).
  destruct (resolve_table path AbsoluteMax w content buf Hr Hg Hne eq_refl)
    as (Hc & _ & v1 & V1 & Hl1).
  destruct (resolve_table path AbsoluteMin (snd r1) content buf E1 Hg Hne eq_refl)
    as (_ & _ & v2 & V2 & Hl2).
  destruct (resolve_table path (Percentile p) (snd r2) content buf E2 Hg Hne)
    as (_ & _ & v3 & V3 & Hl3); [simpl; by rewrite Hn, Hu|].
  cbn zeta in *. fold s count in Hc, Hl1, Hl2, Hl3.
  fold r1 in V1. fold r2 in V2. fold r3 in V3. subst v1 v2 v3.
  split; [exact Hc|]. split; [|split; [|exact Hl3]].
  - rewrite last_lookup, <- Hl1. f_equal. lia.
  - rewrite head_lookup. exact Hl2.
Qed.

(** The absolute bounds are the extrema of the parsed values. *)
Lemma resolve_extrema
    (path : string) (w : world) (content buf : string) :
  readable w (now w) (table_of path) = Some content ->
  fgets MAX_FREQ_BUF content = Some buf ->
  parse_loop FREQS_LEN buf <> [] ->
  let freqs := parse_loop FREQS_LEN buf in
  fst (resolve path AbsoluteMax w) ∈ freqs
  /\ fst (resolve path AbsoluteMin w) ∈ freqs
  /\ forall v, v ∈ freqs ->
       fst (resolve path AbsoluteMin w) <= v <= fst (resolve path AbsoluteMax w).
Proof.
  intros Hr Hg Hne freqs.
  destruct (resolve_table path AbsoluteMax w content buf Hr Hg Hne eq_refl)
    as (Hc & _ & v1 & <- & Hl1).
  destruct (resolve_table path AbsoluteMin w content buf Hr Hg Hne eq_refl)
    as (_ & _ & v2 & <- & Hl2).
  cbn zeta in *. fold freqs in Hc, Hl1, Hl2.
  pose proof (bubble_sort_perm freqs) as Hperm.
  pose proof (bubble_sort_sorted freqs) as Hs.
  split_and!.
  - rewrite <- Hperm. by eapply list_elem_of_lookup_2.
  - rewrite <- Hperm. by eapply list_elem_of_lookup_2.
  - intros v Hv. rewrite <- Hperm in Hv.
    apply list_elem_of_lookup_1 in Hv as [i Hi].
    pose proof (lookup_lt_Some _ _ _ Hi) as Hlt.
    split.
    + eapply (sorted_lookup_le _ Hs); [exact Hl2|exact Hi|lia].
    + eapply (sorted_lookup_le _ Hs); [exact Hi|exact Hl1|lia].
Qed.

(** The events of one step: none, or two writes on the bounds of the
    entry. *)
Lemma policy_step_events h d w :
  new_events w (policy_step h d w) = []
  \/ (has_prefix "policy" d = true
      /\ exists e1 e2, new_events w (policy_step h d w) = [e1; e2]
                       /\ writes_bound_of d e1 /\ writes_bound_of d e2).
Proof.
  destruct (has_prefix "policy" d) eqn:Hp.
  2:{ left. rewrite policy_step_other by done. apply new_events_app. by rewrite app_nil_r. }
  set (path := policy_path_of d).
  set (r1 := resolve path AbsoluteMax w).
  set (r2 := resolve path AbsoluteMin (snd r1)).
  destruct (decide (fst r1 = 0 \/ fst r2 = 0)) as [Hz|Hnz].
  - left. pose proof (policy_step_skipped h d w Hp Hz) as Hs.
    cbn zeta in Hs. fold path r1 r2 in Hs. rewrite Hs.
    pose proof (get_target_freq_frame path f_1_0 1 0 w) as (_ & _ & _ & _ & _ & T1 & _).
    pose proof (get_target_freq_frame path f_0_0 0 1 (snd r1)) as (_ & _ & _ & _ & _ & T2 & _).
    apply new_events_app. rewrite app_nil_r.
    change (get_target_freq path f_1_0 1 0 w) with r1 in *.
    change (get_target_freq path f_0_0 0 1 (snd r1)) with r2 in *.
    cbn zeta in *. congruence.
  - right. split; [done|].
    pose proof (policy_step_resolved h d w Hp) as Hs.
    cbn zeta in Hs. fold path r1 r2 in Hs.
    specialize (Hs ltac:(lia) ltac:(lia)).
    rewrite (new_events_app _ _ _ Hs).
    destruct (truthy h); eexists _, _; (split; [reflexivity|]);
      split; eexists _, _; fold path; eauto.
Qed.

Lemma readdir_loop_events h entries : forall w e,
  e ∈ new_events w (readdir_loop h entries w) ->
  exists d, d ∈ entries /\ has_prefix "policy" d = true /\ writes_bound_of d e.
Proof.
  induction entries as [|d rest IH]; intros w e He; cbn [readdir_loop] in He.
  - unfold new_events in He. rewrite drop_all in He. by apply elem_of_nil in He.
  - destruct (policy_step_frame h d w) as (_ & _ & _ & _ & _ & evs1 & T1 & _).
    destruct (readdir_loop_frame h rest (policy_step h d w)) as (_ & _ & _ & _ & _ & evs2 & T2 & _).
    rewrite (new_events_app w _ (evs1 ++ evs2)) in He
      by (rewrite T2, T1, <- app_assoc; done).
    apply elem_of_app in He as [He|He].
    + exists d. split; [apply list_elem_of_here|].
      rewrite <- (new_events_app _ _ _ T1) in He.
      destruct (policy_step_events h d w) as [E|(Hp & e1 & e2 & E & H1 & H2)];
        rewrite E in He.
      * by apply elem_of_nil in He.
      * split; [done|].
        apply elem_of_cons in He as [->|He]; [done|].
        apply list_elem_of_singleton in He as ->. done.
    + rewrite <- (new_events_app _ _ _ T2) in He.
      destruct (IH _ _ He) as (d' & Hd' & Hp' & Hw').
      exists d'. split; [by apply list_elem_of_further|done].
Qed.

Lemma readdir_loop_count h entries : forall w,
  (length (new_events w (readdir_loop h entries w))
   <= 2 * length (List.filter (has_prefix "policy") entries))%nat.
Proof.
  induction entries as [|d rest IH]; intros w; cbn [readdir_loop].
  - unfold new_events. rewrite drop_all. simpl. lia.
  - destruct (policy_step_frame h d w) as (_ & _ & _ & _ & _ & evs1 & T1 & _).
    destruct (readdir_loop_frame h rest (policy_step h d w)) as (_ & _ & _ & _ & _ & evs2 & T2 & _).
    rewrite (new_events_app w _ (evs1 ++ evs2)) by (rewrite T2, T1, <- app_assoc; done).
    specialize (IH (policy_step h d w)). rewrite (new_events_app _ _ _ T2) in IH.
    rewrite length_app. cbn [List.filter].
    destruct (policy_step_events h d w) as [E|(Hp & e1 & e2 & E & _)];
      rewrite (new_events_app _ _ _ T1) in E; subst evs1.
    + destruct (has_prefix "policy" d); simpl; lia.
    + rewrite Hp. simpl. lia.
Qed.

Lemma readdir_loop_filter h entries : forall w,
  readdir_loop h entries w = readdir_loop h (List.filter (has_prefix "policy") entries) w.
Proof.
  induction entries as [|d rest IH]; intros w; [done|].
  cbn [readdir_loop List.filter].
  destruct (has_prefix "policy" d) eqn:Hp.
  - cbn [readdir_loop]. apply IH.
  - rewrite policy_step_other by done. apply IH.
Qed.

Lemma substring_whole s : forall n, (String.length s <= n)%nat -> substring 0 n s = s.
Proof.
  induction s as [|c s IH]; intros n Hn; [by destruct n|].
  destruct n as [|n]; simpl in *; [lia|]. rewrite IH; [done|lia].
Qed.

Lemma snprintf_fits size text :
  (String.length text < size)%nat -> snprintf size text = text.
Proof. intros H. unfold snprintf. apply substring_whole. lia. Qed.

Lemma append_cancel (p p' a b : string) :
  String.length a = String.length b -> p +:+ a = p' +:+ b -> p = p' /\ a = b.
Proof.
  revert p'. induction p as [|c p IH]; intros p' Hlen H.
  - destruct p' as [|c' p']; [done|]. exfalso.
    change (a = String c' (p' +:+ b)) in H. subst a.
    simpl in Hlen. rewrite length_append in Hlen. lia.
  - destruct p' as [|c' p'].
    + exfalso. change (String c (p +:+ a) = b) in H. subst b.
      simpl in Hlen. rewrite length_append in Hlen. lia.
    + change (String c (p +:+ a) = String c' (p' +:+ b)) in H.
      injection H as -> H. destruct (IH p' Hlen H) as [-> ->]. done.
Qed.

Lemma append_inj_l (p x y : string) : p +:+ x = p +:+ y -> x = y.
Proof.
  induction p as [|c p IH]; intros E; [exact E|].
  change (String c (p +:+ x) = String c (p +:+ y)) in E. injection E as E. by apply IH.
Qed.

Lemma is_write_filters evs :
  forallb is_write evs = true ->
  List.filter is_sleep evs = [] /\ List.filter is_print evs = [].
Proof.
  induction evs as [|e evs IH]; [done|]. cbn [forallb].
  intros H. apply andb_true_iff in H as [He H]. destruct (IH H) as [I1 I2].
  destruct e; try discriminate He. cbn. done.
Qed.

Lemma main_iteration_frame st w :
  let w' := snd (main_iteration st w) in
  readable w' = readable w /\ writable w' = writable w /\ listing w' = listing w
  /\ stat_line w' = stat_line w.
Proof.
  rewrite main_iteration_unfold. cbn [snd].
  destruct (apply_profile_frame (profile_flag (classify (usage_at st w))) (world_at_apply st w))
    as (R & W & L & S & _). cbn zeta in *.
  rewrite R, W, L, S.
  unfold world_at_apply, sampled, get_cpu_times, fopen_stat.
  destruct (stat_line _ _); done.
Qed.

Lemma main_loop_trace n : forall st w,
  let w' := snd (main_loop n st w) in
  (readable w' = readable w /\ writable w' = writable w /\ listing w' = listing w
   /\ stat_line w' = stat_line w)
  /\ exists evs,
       trace w' = trace w ++ evs
       /\ length (List.filter is_sleep evs) = n
       /\ List.filter is_print evs = []
       /\ Forall (fun e => is_sleep e = true -> e = EvSleep MONITOR_INTERVAL_SEC) evs.
Proof.
  induction n as [|n IH]; intros st w; cbn [main_loop].
  - split; [done|]. exists []. rewrite app_nil_r. split_and!; done.
  - destruct (main_iteration st w) as [st1 w1] eqn:E.
    pose proof (main_iteration_frame st w) as F.
    destruct (iteration_events st w) as (evs1 & T1 & A1).
    rewrite E in F, T1. cbn [snd] in F, T1. cbn zeta in F.
    destruct F as (R1 & W1 & L1 & S1).
    destruct (IH st1 w1) as ((R2 & W2 & L2 & S2) & evs2 & T2 & N2 & P2 & F2).
    cbn zeta. split; [split_and!; congruence|].
    destruct (is_write_filters evs1 A1) as [Fs Fp].
    exists (EvSleep MONITOR_INTERVAL_SEC :: evs1 ++ evs2).
    split_and!.
    + rewrite T2, T1, <- app_assoc. done.
    + cbn [List.filter is_sleep]. rewrite List.filter_app, Fs. simpl. by rewrite N2.
    + cbn [List.filter is_print]. rewrite List.filter_app, Fp, P2. done.
    + constructor; [done|]. apply Forall_app. split; [|done].
      apply Forall_forall. intros e He Hs. exfalso.
      rewrite forallb_forall in A1. apply list_elem_of_In, A1 in He.
      destruct e; discriminate.
Qed.

Lemma digit_cases (d : N) :
  (d < 10)%N ->
  d = 0%N \/ d = 1%N \/ d = 2%N \/ d = 3%N \/ d = 4%N
  \/ d = 5%N \/ d = 6%N \/ d = 7%N \/ d = 8%N \/ d = 9%N.
Proof. lia. Qed.

(** A decimal digit, as [pretty] prints it, is read back as a digit; it is
    neither white space nor a sign. *)
Lemma digit_char d :
  (d < 10)%N ->
  digit_of (pretty_N_char d) = Some (Z.of_N d)
  /\ is_space (pretty_N_char d) = false
  /\ forall r, signed_digits (String (pretty_N_char d) r) = (false, String (pretty_N_char d) r).
Proof.
  intros H. destruct (digit_cases d H) as [->|[->|[->|[->|[->|[->|[->|[->|[->| ->]]]]]]]]];
    (split; [reflexivity|split; [reflexivity|intros r; reflexivity]]).
Qed.

Lemma go_digits x : forall s,
  digits_value 0 (pretty_N_go x s) = digits_value (Z.of_N x) s.
Proof.
  induction (N.lt_wf_0 x) as [x _ IH]; intros s.
  destruct (N.eq_dec x 0%N) as [->|Hx]; [by rewrite pretty_N_go_0|].
  rewrite pretty_N_go_step by lia.
  rewrite IH by (apply N.div_lt; lia).
  cbn [digits_value].
  destruct (digit_char (x mod 10)%N) as (-> & _); [apply N.mod_lt; lia|].
  f_equal. pose proof (N.div_mod x 10%N ltac:(lia)). lia.
Qed.

Lemma go_head x : forall s,
  (0 < x)%N ->
  exists d rest, (d < 10)%N /\ pretty_N_go x s = String (pretty_N_char d) rest.
Proof.
  induction (N.lt_wf_0 x) as [x _ IH]; intros s Hx.
  rewrite pretty_N_go_step by done.
  destruct (N.eq_dec (x / 10)%N 0%N) as [E|E].
  - rewrite E, pretty_N_go_0. exists (x mod 10)%N, s. split; [|done].
    apply N.mod_lt. lia.
  - apply IH; [apply N.div_lt; lia|by apply N.neq_0_lt_0].
Qed.

Lemma go_length (k : nat) : forall x s,
  (x < 10 ^ N.of_nat k)%N ->
  (String.length (pretty_N_go x s) <= k + String.length s)%nat.
Proof.
  induction k as [|k IH]; intros x s Hx.
  - assert (x = 0%N) as -> by (simpl in Hx; lia). rewrite pretty_N_go_0. lia.
  - destruct (N.eq_dec x 0%N) as [->|Hne]; [rewrite pretty_N_go_0; lia|].
    rewrite pretty_N_go_step by lia.
    etrans; [apply IH|simpl; lia].
    apply N.Div0.div_lt_upper_bound.
    rewrite Nat2N.inj_succ, N.pow_succ_r in Hx by lia. lia.
Qed.

(** What [pretty] prints for a positive number: digits, read back as the
    number. *)
Lemma pretty_pos (p : positive) :
  Zpos p < 10 ^ 10 ->
  digits_value 0 (pretty (Npos p)) = Zpos p
  /\ (String.length (pretty (Npos p)) <= 10)%nat
  /\ exists d rest, (d < 10)%N /\ pretty (Npos p) = String (pretty_N_char d) rest.
Proof.
  intros Hp. unfold pretty, pretty_N. destruct (decide (Npos p = 0%N)) as [E|_]; [done|].
  split; [by rewrite go_digits|]. split.
  - pose proof (go_length 10 (Npos p) "") as H. simpl in H. apply H. lia.
  - by apply go_head.
Qed.

Lemma saturate_long_small v : - 2 ^ 63 < v < 2 ^ 63 -> saturate_long v = v.
Proof. unfold saturate_long, LONG_MIN, LONG_MAX. lia. Qed.

Lemma wrap_int_small v : INT_MIN <= v <= INT_MAX -> wrap_int v = v.
Proof. unfold INT_MIN, INT_MAX, wrap_int. intros H. rewrite Z.mod_small; lia. Qed.

Lemma shr_1_div mrs : 0 <= shr_m mrs -> shr_m (shr_1 mrs) = shr_m mrs / 2.
Proof.
  destruct mrs as [m r s]. simpl. intros Hm.
  destruct m as [|[p|p|]|p]; simpl; try lia; try reflexivity.
  - apply Z.div_unique with (r := 1); lia.
  - apply Z.div_unique with (r := 0); lia.
Qed.

Lemma iter_shr_1_div n : forall mrs,
  0 <= shr_m mrs ->
  shr_m (SpecFloat.iter_pos shr_1 n mrs) = shr_m mrs / 2 ^ Zpos n.
Proof.
  induction n as [n IH|n IH|]; intros mrs Hm; cbn [SpecFloat.iter_pos].
  - pose proof (shr_1_bounds mrs Hm) as [H1 _].
    pose proof (iter_shr_1_bounds n (shr_1 mrs) H1) as [H2 _].
    assert (E : 2 ^ Zpos n~1 = 2 * (2 ^ Zpos n * 2 ^ Zpos n)).
    { replace (Zpos n~1) with (1 + (Zpos n + Zpos n)) by lia.
      rewrite !Z.pow_add_r by lia. reflexivity. }
    assert (0 < 2 ^ Zpos n) by (apply Z.pow_pos_nonneg; lia).
    rewrite IH by done. rewrite IH by done. rewrite shr_1_div by done.
    rewrite !Z.div_div by lia. by rewrite E.
  - pose proof (iter_shr_1_bounds n mrs Hm) as [H2 _].
    assert (E : 2 ^ Zpos n~0 = 2 ^ Zpos n * 2 ^ Zpos n).
    { replace (Zpos n~0) with (Zpos n + Zpos n) by lia.
      rewrite !Z.pow_add_r by lia. reflexivity. }
    assert (0 < 2 ^ Zpos n) by (apply Z.pow_pos_nonneg; lia).
    rewrite IH by done. rewrite IH by done.
    rewrite Z.div_div by lia. by rewrite E.
  - rewrite shr_1_div by done. reflexivity.
Qed.

Lemma Zdigits2_bounds m :
  0 < m -> 2 ^ (Zdigits2 m - 1) <= m < 2 ^ Zdigits2 m.
Proof. destruct m as [|p|p]; try lia. intros _. apply digits2_pos_bounds. Qed.

Lemma Zdigits2_ge m k : 0 < m -> 2 ^ (k - 1) <= m -> k <= Zdigits2 m.
Proof.
  intros Hm Hk. pose proof (Zdigits2_bounds m Hm) as [_ Hhi].
  destruct (Z_lt_le_dec (Zdigits2 m) k) as [Hlt|]; [|done]. exfalso.
  pose proof (Zdigits2_nonneg m).
  assert (2 ^ Zdigits2 m <= 2 ^ (k - 1)) by (apply Z.pow_le_mono_r; lia). lia.
Qed.

(** Rounding in the normal range: a mantissa of at least [prec] bits is
    brought to exactly [prec] bits. *)
Lemma shr_fexp_normal prec emax m e l :
  0 < prec -> 0 < m -> prec <= Zdigits2 m ->
  3 - emax - prec <= Zdigits2 m + e - prec ->
  2 ^ (prec - 1) <= shr_m (fst (shr_fexp prec emax m e l)) < 2 ^ prec
  /\ snd (shr_fexp prec emax m e l) = Zdigits2 m + e - prec.
Proof.
  intros Hprec Hm Hd Hemin.
  pose proof (Zdigits2_bounds m Hm) as [Hlo Hhi].
  unfold shr_fexp, shr, fexp, SpecFloat.emin.
  rewrite Z.max_l by lia.
  destruct (Zdigits2 m + e - prec - e) as [|n|n] eqn:En; cbn [fst snd].
  - rewrite shr_record_of_loc_m. assert (Zdigits2 m = prec) as E by lia.
    rewrite E in Hlo, Hhi. lia.
  - pose proof (shr_record_of_loc_m m l) as Hrec.
    rewrite iter_shr_1_div by (rewrite Hrec; lia). rewrite Hrec.
    assert (Hn : Zdigits2 m = prec + Zpos n) by lia.
    assert (0 < 2 ^ Zpos n) by (apply Z.pow_pos_nonneg; lia).
    split; [split|lia].
    + apply Z.div_le_lower_bound; [lia|].
      replace (Zdigits2 m - 1) with (Zpos n + (prec - 1)) in Hlo by lia.
      rewrite Z.pow_add_r in Hlo by lia. lia.
    + apply Z.div_lt_upper_bound; [lia|].
      rewrite Hn in Hhi. rewrite Z.pow_add_r in Hhi by lia. lia.
  - lia.
Qed.

Lemma binary_round_aux_normal prec emax sx m e l :
  0 < prec -> 0 < m -> prec <= Zdigits2 m ->
  3 - emax - prec <= Zdigits2 m + e - prec ->
  Zdigits2 m + e - prec + 1 <= emax - prec ->
  exists m' e',
    binary_round_aux prec emax sx m e l = S754_finite sx m' e'
    /\ 2 ^ (prec - 1) <= Zpos m' < 2 ^ prec
    /\ Zdigits2 m + e - prec <= e' <= Zdigits2 m + e - prec + 1.
Proof.
  intros Hprec Hm Hd Hemin Hemax. unfold binary_round_aux.
  pose proof (shr_fexp_normal prec emax m e l Hprec Hm Hd Hemin) as [Hm1 He1].
  destruct (shr_fexp prec emax m e l) as [mrs' e1]. cbn [fst snd] in Hm1, He1.
  set (mr := round_nearest_even (shr_m mrs') (loc_of_shr_record mrs')).
  assert (0 < 2 ^ (prec - 1)) by (apply Z.pow_pos_nonneg; lia).
  pose proof (round_nearest_even_bounds (shr_m mrs') (loc_of_shr_record mrs') ltac:(lia)) as Hr.
  fold mr in Hr.
  assert (Hdr : prec <= Zdigits2 mr <= prec + 1).
  { split; [apply Zdigits2_ge; lia|].
    apply Zdigits2_le_of_lt; [lia|]. split; [lia|].
    rewrite Z.pow_add_r by lia. lia. }
  pose proof (shr_fexp_normal prec emax mr e1 loc_Exact Hprec ltac:(lia) ltac:(lia) ltac:(lia))
    as [Hm2 He2].
  destruct (shr_fexp prec emax mr e1 loc_Exact) as [mrs'' e2]. cbn [fst snd] in Hm2, He2.
  destruct (shr_m mrs'') as [|q|q] eqn:Eq; try lia.
  assert ((e2 <=? emax - prec) = true) as -> by (apply Z.leb_le; lia).
  exists q, e2. split; [done|]. split; [done|lia].
Qed.

Lemma digits2_pos_iter p n :
  Zpos (digits2_pos (Pos.iter xO p n)) = Zpos (digits2_pos p) + Zpos n.
Proof.
  induction n as [|n IH] using Pos.peano_ind.
  - simpl. lia.
  - rewrite Pos.iter_succ. cbn [digits2_pos]. lia.
Qed.

(** The conversion of a positive integer below 2^64 to [double] gives a
    normal number. *)
Lemma b64_of_Z_normal z :
  0 < z < 2 ^ 64 ->
  exists m e, b64_of_Z z = S754_finite false m e
              /\ 2 ^ 52 <= Zpos m < 2 ^ 53 /\ -52 <= e <= 12.
Proof.
  intros [Hz Hlt]. destruct z as [|p|p]; try lia.
  unfold b64_of_Z, binary_normalize, binary_round.
  pose proof (digits2_pos_bounds p) as [Hlo Hhi].
  assert (Hd : 1 <= Zpos (digits2_pos p) <= 64).
  { split; [lia|]. apply (Zdigits2_le_of_lt (Zpos p)); lia. }
  unfold shl_align, fexp, SpecFloat.emin. rewrite Z.max_l by lia.
  destruct (Z.pos (digits2_pos p) + 0 - 53 - 0) as [|n|n] eqn:En.
  - destruct (binary_round_aux_normal 53 1024 false (Zpos p) 0 loc_Exact)
      as (m & e & -> & Hm & He); simpl Zdigits2; try lia.
    cbn [Zdigits2] in He. exists m, e. split; [done|]. split; [exact Hm|lia].
  - destruct (binary_round_aux_normal 53 1024 false (Zpos p) 0 loc_Exact)
      as (m & e & -> & Hm & He); simpl Zdigits2; try lia.
    cbn [Zdigits2] in He. exists m, e. split; [done|]. split; [exact Hm|lia].
  - pose proof (digits2_pos_iter p n) as Hi.
    destruct (binary_round_aux_normal 53 1024 false (Zpos (Pos.iter xO p n))
                (Z.pos (digits2_pos p) + 0 - 53) loc_Exact)
      as (m & e & -> & Hm & He); simpl Zdigits2; try lia.
    cbn [Zdigits2] in He. exists m, e. split; [done|]. split; [exact Hm|lia].
Qed.

Lemma normal_digits m : 2 ^ 52 <= Zpos m < 2 ^ 53 -> Zdigits2 (Zpos m) = 53.
Proof.
  intros [Hlo Hhi].
  pose proof (Zdigits2_ge (Zpos m) 53 ltac:(lia) Hlo).
  pose proof (Zdigits2_le_of_lt (Zpos m) 53 ltac:(lia) ltac:(lia)). lia.
Qed.

Lemma b64_mul_normal mx ex my ey :
  2 ^ 52 <= Zpos mx < 2 ^ 53 -> 2 ^ 52 <= Zpos my < 2 ^ 53 ->
  -200 <= ex + ey <= 200 ->
  exists m e,
    b64_mul (S754_finite false mx ex) (S754_finite false my ey) = S754_finite false m e
    /\ 2 ^ 52 <= Zpos m < 2 ^ 53 /\ ex + ey + 52 <= e <= ex + ey + 54.
Proof.
  intros Hx Hy He. unfold b64_mul, SFmul. cbn [xorb].
  assert (Hprod : 2 ^ 104 <= Zpos (mx * my) < 2 ^ 106).
  { rewrite Pos2Z.inj_mul.
    change (2 ^ 104) with (2 ^ 52 * 2 ^ 52). change (2 ^ 106) with (2 ^ 53 * 2 ^ 53).
    split.
    - apply Z.mul_le_mono_nonneg; lia.
    - apply Z.mul_lt_mono_nonneg; lia. }
  assert (Hd : 105 <= Zdigits2 (Zpos (mx * my)) <= 106).
  { split; [apply Zdigits2_ge; [lia|]; change (105 - 1) with 104; lia|].
    apply Zdigits2_le_of_lt; lia. }
  destruct (binary_round_aux_normal 53 1024 false (Zpos (mx * my)) (ex + ey) loc_Exact)
    as (m & e & -> & Hm & Hb); try lia.
  exists m, e. split; [done|]. split; [exact Hm|lia].
Qed.

Lemma b64_div_normal mx ex my ey :
  2 ^ 52 <= Zpos mx < 2 ^ 53 -> 2 ^ 52 <= Zpos my < 2 ^ 53 ->
  -200 <= ex - ey <= 200 ->
  exists m e,
    b64_div (S754_finite false mx ex) (S754_finite false my ey) = S754_finite false m e
    /\ 2 ^ 52 <= Zpos m < 2 ^ 53 /\ ex - ey - 53 <= e <= ex - ey - 51.
Proof.
  intros Hx Hy He. unfold b64_div, SFdiv, SFdiv_core_binary. cbn [xorb].
  rewrite (normal_digits mx Hx), (normal_digits my Hy).
  unfold fexp, SpecFloat.emin.
  replace (53 + ex - (53 + ey)) with (ex - ey) by lia.
  rewrite (Z.max_l (ex - ey - 53)) by lia.
  rewrite (Z.min_l (ex - ey - 53)) by lia.
  replace (ex - ey - (ex - ey - 53)) with 53 by lia.
  cbv iota.
  rewrite Z.shiftl_mul_pow2 by lia.
  pose proof (Z_div_mod (Zpos mx * 2 ^ 53) (Zpos my) ltac:(lia)) as Hdm.
  destruct (Z.div_eucl (Zpos mx * 2 ^ 53) (Zpos my)) as [q r].
  destruct Hdm as [Hq Hr].
  assert (Hqb : 2 ^ 52 <= q < 2 ^ 54).
  { change (2 ^ 54) with (2 * 2 ^ 53) in *. split; nia. }
  assert (Hd : 53 <= Zdigits2 q <= 54).
  { split; [apply Zdigits2_ge; [lia|]; change (53 - 1) with 52; lia|].
    apply Zdigits2_le_of_lt; lia. }
  destruct (binary_round_aux_normal 53 1024 false q (ex - ey - 53) (new_location (Zpos my) r))
    as (m & e & -> & Hm & Hb); try lia.
  exists m, e. split; [done|]. split; [exact Hm|lia].
Qed.

Lemma normal_valid m e :
  2 ^ 52 <= Zpos m < 2 ^ 53 -> -1074 <= e <= 971 ->
  valid_binary 53 1024 (S754_finite false m e) = true.
Proof.
  intros Hm He. cbn [valid_binary]. unfold bounded, canonical_mantissa, fexp, SpecFloat.emin.
  pose proof (normal_digits m Hm) as Hd. cbn [Zdigits2] in Hd. rewrite Hd.
  apply andb_true_iff. split; [apply Z.eqb_eq|apply Z.leb_le]; lia.
Qed.

(** The usage computed from a positive difference of totals is 0.0 or a
    positive normal [double]. *)
Lemma usage_of_shape dt di :
  0 < dt < 2 ^ 64 ->
  usage_of dt di = pos_zero
  \/ exists m e, usage_of dt di = S754_finite false m e
                 /\ 2 ^ 52 <= Zpos m < 2 ^ 53 /\ -1074 <= e <= 971.
Proof.
  intros Hdt. unfold usage_of.
  destruct (Z.gtb_spec dt 0); [|lia].
  destruct (b64_of_Z_normal dt Hdt) as (md & ed & -> & Hmd & Hed).
  pose proof (wrap64_range (dt - di)) as Hx.
  destruct (Z.eq_dec (wrap64 (dt - di)) 0) as [->|Hne].
  - left. reflexivity.
  - right.
    destruct (b64_of_Z_normal (wrap64 (dt - di)) ltac:(lia)) as (mx & ex & -> & Hmx & Hex).
    change d_100 with (S754_finite false 7036874417766400 (-46)).
    destruct (b64_mul_normal 7036874417766400 (-46) mx ex) as (mp & ep & -> & Hmp & Hep);
      [split; [by vm_compute|reflexivity] | exact Hmx | lia |].
    destruct (b64_div_normal mp ep md ed Hmp Hmd ltac:(lia)) as (m & e & -> & Hm & He).
    exists m, e. split; [done|]. split; [exact Hm|lia].
Qed.

End FurtherSupport.

(* ----------------------------------------------------------------- *)
(** ** The properties *)

(** X1. The two nested loops sort: the array they leave is ascending and
    holds the values it held before, each as many times; an array that is
    already ascending is left as it is. *)
Theorem X1_bubble_sort_sorts (freqs : list Z) :
  Sorted Z.le (bubble_sort freqs)
  /\ bubble_sort freqs ≡ₚ freqs
  /\ (forall i j x y, (i <= j)%nat ->
        bubble_sort freqs !! i = Some x -> bubble_sort freqs !! j = Some y -> x <= y)
  /\ (Sorted Z.le freqs -> bubble_sort freqs = freqs).
Proof.
  split_and!.
  - apply StronglySorted_Sorted, bubble_sort_sorted.
  - apply bubble_sort_perm.
  - intros i j x y Hij Hi Hj.
    exact (sorted_lookup_le _ (bubble_sort_sorted freqs) i j x y Hi Hj Hij).
  - intros Hs. symmetry. by apply sorted_is_bubble_sort.
Qed.

(** X2. The parsing loop stores the values of the first hundred tokens of
    the line, in order, and never more than a hundred values; every token
    is a non-empty run of characters other than space, newline and NUL, and
    a file holds fewer than 4096 of them on the line that is read. *)
Theorem X2_parse_loop_first_hundred (content : string) :
  Forall (fun t => is_token t = true) (table_tokens content)
  /\ (length (table_tokens content) < MAX_FREQ_BUF)%nat
  /\ forall buf, fgets MAX_FREQ_BUF content = Some buf ->
       parse_loop FREQS_LEN buf = atoi <$> take FREQS_LEN (table_tokens content)
       /\ (length (parse_loop FREQS_LEN buf) <= FREQS_LEN)%nat
       /\ (String.length buf < MAX_FREQ_BUF)%nat.
Proof.
  unfold table_tokens, fgets.
  destruct content as [|c0 content0].
  { split; [constructor|]. split; [unfold MAX_FREQ_BUF; simpl; lia|]. intros buf H. discriminate H. }
  set (buf := c_string (read_line (MAX_FREQ_BUF - 1) (String c0 content0))).
  assert (Hlen : (String.length buf < MAX_FREQ_BUF)%nat).
  { pose proof (c_string_length (read_line (MAX_FREQ_BUF - 1) (String c0 content0))).
    pose proof (read_line_length (MAX_FREQ_BUF - 1) (String c0 content0)).
    unfold buf, MAX_FREQ_BUF in *. lia. }
  split_and!.
  - apply tokens_upto_shape, c_string_idem.
  - pose proof (tokens_upto_length (String.length buf) buf). unfold line_tokens. lia.
  - intros ? [= <-]. split_and!; [|apply parse_loop_length|done].
    apply parse_loop_line_tokens.
Qed.

(** X3. A table line as the kernel prints it, made of at most 4095
    characters, is read whole by [fgets], split by [strtok] into exactly
    the tokens it was made of, and parsed into the values of the first
    hundred of them. *)
Theorem X3_table_line_round_trip (ts : list string) :
  Forall (fun t => is_token t = true) ts ->
  (String.length (table_line ts) <= 4095)%nat ->
  fgets MAX_FREQ_BUF (table_line ts) = Some (table_line ts)
  /\ table_tokens (table_line ts) = ts
  /\ parse_loop FREQS_LEN (table_line ts) = atoi <$> take FREQS_LEN ts.
Proof.
  intros Hts Hlen.
  assert (Hg : fgets MAX_FREQ_BUF (table_line ts) = Some (table_line ts)).
  { pose proof (table_line_length ts) as Hpos.
    unfold fgets. destruct (table_line ts) as [|c s] eqn:E; [simpl in Hpos; lia|].
    rewrite <- E in *.
    rewrite read_line_table_line by (unfold MAX_FREQ_BUF; (done || lia)).
    by rewrite c_string_table_line. }
  split_and!; [done| |].
  - unfold table_tokens. rewrite Hg. by apply line_tokens_table_line.
  - rewrite parse_loop_line_tokens. by rewrite line_tokens_table_line.
Qed.

Lemma X3_witness :
  table_tokens (table_line ["300000"; "600000"; "900000"]) = ["300000"; "600000"; "900000"]
  /\ parse_loop FREQS_LEN (table_line ["300000"; "600000"; "900000"])
     = [300000; 600000; 900000].
Proof.
  pose proof (X3_table_line_round_trip ["300000"; "600000"; "900000"]) as H.
  destruct H as (_ & H2 & H3).
  - repeat constructor.
  - vm_compute. lia.
  - split; [exact H2|exact H3].
Defined.

(** X4. For every value of an [int], the text [write_int_to_file] hands
    over is at most 11 characters long, so that the 32-byte buffer never
    cuts it, and [atoi] and the [%d] of [fscanf] read the value back from
    it. *)
Theorem X4_decimal_round_trip (value : Z) :
  INT_MIN <= value <= INT_MAX ->
  decimal value = pretty value
  /\ (String.length (decimal value) <= 11)%nat
  /\ atoi (decimal value) = value
  /\ scan_d (decimal value) = Some value.
Proof.
  intros Hv.
  assert (Hw : wrap_int (saturate_long value) = value).
  { rewrite saturate_long_small by (unfold INT_MIN, INT_MAX in Hv; lia).
    by apply wrap_int_small. }
  assert (Hlen : (String.length (pretty value) <= 11)%nat
                 /\ atoi (pretty value) = value /\ scan_d (pretty value) = Some value).
  { unfold INT_MIN, INT_MAX in Hv.
    destruct value as [|p|p].
    - split; [simpl; lia|]. split; reflexivity.
    - destruct (pretty_pos p ltac:(lia)) as (Hd & Hl & d & rest & Hlt & E).
      change (pretty (Zpos p)) with (pretty (Npos p)).
      split; [lia|].
      destruct (digit_char d Hlt) as (Hdig & _ & Hsd).
      assert (Hsd' : signed_digits (pretty (Npos p)) = (false, pretty (Npos p)))
        by (rewrite E; apply Hsd).
      unfold atoi, scan_d. rewrite Hsd'. cbv beta iota. rewrite Hd, Hw.
      split; [reflexivity|]. rewrite E, Hdig. reflexivity.
    - destruct (pretty_pos p ltac:(lia)) as (Hd & Hl & d & rest & Hlt & E).
      change (pretty (Zneg p)) with (String "-" (pretty (Npos p))).
      split; [simpl; lia|].
      destruct (digit_char d Hlt) as (Hdig & _ & _).
      unfold atoi, scan_d.
      change (signed_digits (String "-" (pretty (Npos p)))) with (true, pretty (Npos p)).
      cbv beta iota. rewrite Hd. change (- Zpos p) with (Zneg p). rewrite Hw.
      split; [reflexivity|]. rewrite E, Hdig. reflexivity. }
  destruct Hlen as (Hl & Ha & Hs).
  assert (Hdec : decimal value = pretty value).
  { unfold decimal, snprintf. apply substring_whole. lia. }
  rewrite Hdec. done.
Qed.

Lemma X4_witness :
  atoi (decimal 1200000) = 1200000 /\ scan_d (decimal (-7)) = Some (-7).
Proof.
  pose proof (X4_decimal_round_trip 1200000 ltac:(unfold INT_MIN, INT_MAX; lia)) as (_ & _ & H1 & _).
  pose proof (X4_decimal_round_trip (-7) ltac:(unfold INT_MIN, INT_MAX; lia)) as (_ & _ & _ & H2).
  split; [exact H1|exact H2].
Defined.

(** X5. When [/proc/stat] opens, the sampler overwrites the two counters of
    its caller, whatever they held, with values below 2^64; when the fields
    are not negative and their sum is below 2^64, these are the sum of the
    idle and iowait fields and the sum of the eight fields, and the first
    is at most the second. Nothing is written. *)
Theorem X5_cpu_times_sample (idle total : Z) (w : world) (l : cpu_line) :
  stat_line w (now w) = Some l ->
  let r := get_cpu_times idle total w in
  0 <= fst (fst r) < 2 ^ 64
  /\ 0 <= snd (fst r) < 2 ^ 64
  /\ snd r = tick w
  /\ (fields_nonneg l -> fields_total l < 2 ^ 64 ->
      fst (fst r) = fields_idle l /\ snd (fst r) = fields_total l
      /\ fst (fst r) <= snd (fst r)).
Proof.
  intros Hs r. subst r. unfold get_cpu_times, fopen_stat. rewrite Hs. cbn [fst snd].
  split; [apply wrap64_range|]. split; [apply wrap64_range|]. split; [done|].
  unfold fields_nonneg, fields_total, fields_idle, wrap64.
  intros (H1 & H2 & H3 & H4 & H5 & H6 & H7 & H8) Hsum.
  rewrite !Z.mod_small by lia. lia.
Qed.

Lemma X5_witness :
  fst (get_cpu_times 7 9 stat_once) = (50, 200).
Proof.
  pose proof (X5_cpu_times_sample 7 9 stat_once line_a eq_refl) as (_ & _ & _ & H).
  destruct H as (H1 & H2 & _).
  - unfold fields_nonneg. simpl. lia.
  - reflexivity.
  - destruct (get_cpu_times 7 9 stat_once) as [[i t] w']. simpl in *. by subst.
Defined.

(** X6. When the cpufreq directory cannot be opened, [apply_profile] does
    nothing but the attempt; and the entries whose name does not start with
    [policy] (such as [.] and [..]) change nothing: the result is the one
    the [policy] entries alone would give. *)
Theorem X6_discovery (is_high_load : Z) (w : world) :
  (listing w (now w) SYS_CPU_BASE = None -> apply_profile is_high_load w = tick w)
  /\ (forall entries,
        listing w (now w) SYS_CPU_BASE = Some entries ->
        apply_profile is_high_load w
        = readdir_loop is_high_load (List.filter (has_prefix "policy") entries) (tick w)).
Proof.
  unfold apply_profile, opendir. split.
  - intros E. by rewrite E.
  - intros entries E. rewrite E. apply readdir_loop_filter.
Qed.

(** X7. Whatever the load and the state of the files, [apply_profile]
    leaves files, directories and permissions as they are and calls
    [write_to_file] on nothing but the minimum and maximum nodes of listed
    entries whose name starts with [policy], at most twice per such
    entry. *)
Theorem X7_apply_profile_touches_bounds_only (is_high_load : Z) (w : world) :
  readable (apply_profile is_high_load w) = readable w
  /\ writable (apply_profile is_high_load w) = writable w
  /\ listing (apply_profile is_high_load w) = listing w
  /\ (forall e, e ∈ new_events w (apply_profile is_high_load w) ->
        exists entries d,
          listing w (now w) SYS_CPU_BASE = Some entries
          /\ d ∈ entries /\ has_prefix "policy" d = true /\ writes_bound_of d e)
  /\ (forall entries, listing w (now w) SYS_CPU_BASE = Some entries ->
        (length (new_events w (apply_profile is_high_load w))
         <= 2 * length (List.filter (has_prefix "policy") entries))%nat).
Proof.
  destruct (apply_profile_frame is_high_load w) as (R & W & L & _ & _ & _).
  split; [done|]. split; [done|]. split; [done|].
  unfold apply_profile, opendir.
  destruct (listing w (now w) SYS_CPU_BASE) as [entries|] eqn:E.
  - split.
    + intros e He. exists entries.
      destruct (readdir_loop_events is_high_load entries (tick w) e He) as (d & Hd).
      exists d. by split.
    + intros ? [= <-]. apply (readdir_loop_count is_high_load entries (tick w)).
  - split; [|done].
    intros e He. unfold new_events in He. cbn [tick trace] in He.
    rewrite drop_all in He. by apply elem_of_nil in He.
Qed.

(** X8. For a directory entry of at most 193 characters no path is cut by
    the 256-byte arrays: the policy path is the base directory, a slash and
    the name, the four files are that path followed by their names, the
    minimum and maximum nodes differ, and two different entries share no
    node. *)
Theorem X8_paths_not_truncated (d_name : string) :
  (String.length d_name <= 193)%nat ->
  let path := policy_path_of d_name in
  path = SYS_CPU_BASE +:+ "/" +:+ d_name
  /\ table_of path = path +:+ "/scaling_available_frequencies"
  /\ fallback_of path = path +:+ "/cpuinfo_max_freq"
  /\ min_node_of path = path +:+ "/scaling_min_freq"
  /\ max_node_of path = path +:+ "/scaling_max_freq"
  /\ min_node_of path <> max_node_of path
  /\ forall d_name', (String.length d_name' <= 193)%nat -> d_name <> d_name' ->
       min_node_of path <> min_node_of (policy_path_of d_name')
       /\ min_node_of path <> max_node_of (policy_path_of d_name')
       /\ max_node_of path <> max_node_of (policy_path_of d_name').
Proof.
  intros Hd path.
  assert (Hshape : forall d, (String.length d <= 193)%nat ->
            policy_path_of d = SYS_CPU_BASE +:+ "/" +:+ d
            /\ (String.length (policy_path_of d) <= 225)%nat
            /\ min_node_of (policy_path_of d) = policy_path_of d +:+ "/scaling_min_freq"
            /\ max_node_of (policy_path_of d) = policy_path_of d +:+ "/scaling_max_freq").
  { intros d Hlen.
    assert (Hp : policy_path_of d = SYS_CPU_BASE +:+ "/" +:+ d).
    { unfold policy_path_of. apply snprintf_fits.
      rewrite !length_append. unfold MAX_PATH.
      change (String.length SYS_CPU_BASE) with 31%nat.
      change (String.length "/") with 1%nat. lia. }
    assert (Hl : (String.length (policy_path_of d) <= 225)%nat).
    { rewrite Hp, !length_append.
      change (String.length SYS_CPU_BASE) with 31%nat.
      change (String.length "/") with 1%nat. lia. }
    split_and!; try done.
    - unfold min_node_of. apply snprintf_fits. rewrite length_append.
      unfold MAX_PATH. change (String.length "/scaling_min_freq") with 17%nat. lia.
    - unfold max_node_of. apply snprintf_fits. rewrite length_append.
      unfold MAX_PATH. change (String.length "/scaling_max_freq") with 17%nat. lia. }
  destruct (Hshape d_name Hd) as (Hp & Hl & Hmin & Hmax). fold path in Hp, Hl, Hmin, Hmax.
  split; [done|]. split.
  { unfold table_of. apply snprintf_fits. rewrite length_append.
    unfold MAX_PATH. change (String.length "/scaling_available_frequencies") with 30%nat. lia. }
  split.
  { unfold fallback_of. apply snprintf_fits. rewrite length_append.
    unfold MAX_PATH. change (String.length "/cpuinfo_max_freq") with 17%nat. lia. }
  split; [done|]. split; [done|]. split.
  { rewrite Hmin, Hmax. intros H. by apply append_cancel in H as [_ H]. }
  intros d' Hd' Hne.
  destruct (Hshape d' Hd') as (Hp' & _ & Hmin' & Hmax').
  assert (Hpath : path <> policy_path_of d').
  { rewrite Hp, Hp'. intros H. apply Hne.
    by apply append_inj_l, append_inj_l in H. }
  rewrite Hmin, Hmax, Hmin', Hmax'.
  split_and!; intros H; apply append_cancel in H as [H1 H2]; done.
Qed.

Lemma X8_witness :
  min_node_of (policy_path_of "policy0") <> max_node_of (policy_path_of "policy0")
  /\ policy_path_of "policy0" = "/sys/devices/system/cpu/cpufreq/policy0".
Proof.
  pose proof (X8_paths_not_truncated "policy0" ltac:(simpl; lia)) as (H1 & _ & _ & _ & _ & H6 & _).
  split; [exact H6|exact H1].
Defined.

(** X9. In a steady world, for a [policy] entry whose table is readable
    and whose smallest and largest values are not 0, a high load writes the
    largest value to the maximum node and then the value at index
    [3 * count / 4] of the sorted table to the minimum node; a low load
    writes the smallest value to the minimum node and then the value at
    index [count / 2] to the maximum node. *)
Theorem X9_steady_profile_values
    (is_high_load : Z) (d_name : string) (w : world) (content buf : string)
    (lowest highest : Z) :
  has_prefix "policy" d_name = true ->
  steady w ->
  let path := policy_path_of d_name in
  readable w (now w) (table_of path) = Some content ->
  fgets MAX_FREQ_BUF content = Some buf ->
  let s := bubble_sort (parse_loop FREQS_LEN buf) in
  let count := Z.of_nat (length s) in
  head s = Some lowest -> last s = Some highest ->
  lowest <> 0 -> highest <> 0 ->
  exists at_75 at_50,
    s !! Z.to_nat (3 * count / 4) = Some at_75
    /\ s !! Z.to_nat (count / 2) = Some at_50
    /\ lowest <= at_50 <= at_75 /\ at_75 <= highest
    /\ (is_high_load <> 0 ->
        new_events w (policy_step is_high_load d_name w)
        = [EvWrite (max_node_of path) (decimal highest) (writable w O (max_node_of path));
           EvWrite (min_node_of path) (decimal at_75) (writable w O (min_node_of path))])
    /\ (is_high_load = 0 ->
        new_events w (policy_step is_high_load d_name w)
        = [EvWrite (min_node_of path) (decimal lowest) (writable w O (min_node_of path));
           EvWrite (max_node_of path) (decimal at_50) (writable w O (max_node_of path))]).
Proof.
  intros Hp St path Hr Hg s count Hhead Hlast Hlo Hhi.
  assert (Hne : parse_loop FREQS_LEN buf <> []).
  { intros E. subst s. rewrite E in Hhead. discriminate Hhead. }
  destruct (steady_step_values path f_0_75 w content buf St Hr Hg Hne eq_refl eq_refl)
    as (Hc & L75 & H75 & I75).
  destruct (steady_step_values path f_0_50 w content buf St Hr Hg Hne eq_refl eq_refl)
    as (_ & _ & _ & I50).
  cbn zeta in *. fold s count in Hc, L75, H75, I75, I50.
  set (r1 := resolve path AbsoluteMax w) in *.
  set (r2 := resolve path AbsoluteMin (snd r1)) in *.
  rewrite (index_0_75 count Hc) in I75. rewrite (index_0_50 count Hc) in I50.
  assert (E1 : fst r1 = highest) by congruence.
  assert (E2 : fst r2 = lowest) by congruence.
  pose proof (policy_step_resolved is_high_load d_name w Hp) as Hs.
  cbn zeta in Hs. fold path r1 r2 in Hs.
  specialize (Hs ltac:(congruence) ltac:(congruence)).
  pose proof (bubble_sort_sorted (parse_loop FREQS_LEN buf)) as Hsorted. fold s in Hsorted.
  assert (H34 : 0 <= count / 2 <= 3 * count / 4 /\ 3 * count / 4 <= count - 1).
  { split; [split|].
    - apply Z.div_pos; lia.
    - apply Z.div_le_lower_bound; [lia|].
      pose proof (Z.mul_div_le count 2 ltac:(lia)). lia.
    - assert (3 * count / 4 < count) by (apply Z.div_lt_upper_bound; lia). lia. }
  assert (Hhead' : s !! O = Some lowest) by (rewrite <- head_lookup; exact Hhead).
  assert (Hlast' : s !! Nat.pred (length s) = Some highest)
    by (rewrite <- last_lookup; exact Hlast).
  assert (Hcount : count = Z.of_nat (length s)) by reflexivity.
  eexists _, _. split; [exact I75|]. split; [exact I50|].
  split; [split|split; [|split]].
  - eapply (sorted_lookup_le _ Hsorted); [exact Hhead'|exact I50|lia].
  - eapply (sorted_lookup_le _ Hsorted); [exact I50|exact I75|lia].
  - eapply (sorted_lookup_le _ Hsorted); [exact I75|exact Hlast'|lia].
  - intros Hh. apply truthy_true in Hh. rewrite Hh in Hs.
    rewrite (new_events_app _ _ _ Hs), E1, !(steady_flags w (now _)), !(steady_flags w (S _)) by done.
    done.
  - intros Hl. apply truthy_false in Hl. rewrite Hl in Hs.
    rewrite (new_events_app _ _ _ Hs), E2, !(steady_flags w (now _)), !(steady_flags w (S _)) by done.
    done.
Qed.

Lemma X9_witness :
  new_events table10 (policy_step 1 "policy0" table10)
  = [EvWrite (max_node_of policy0) "1000" true; EvWrite (min_node_of policy0) "800" true]
  /\ new_events table10 (policy_step 0 "policy0" table10)
  = [EvWrite (min_node_of policy0) "100" true; EvWrite (max_node_of policy0) "600" true].
Proof.
  destruct (X9_steady_profile_values 1 "policy0" table10
              ("100 200 300 400 500 600 700 800 900 1000 " +:+ nl)
              ("100 200 300 400 500 600 700 800 900 1000 " +:+ nl) 100 1000)
    as (a & b & Ha & Hb & _ & _ & H1 & _);
    [reflexivity|by split_and!|reflexivity|reflexivity|reflexivity|reflexivity|lia|lia|].
  destruct (X9_steady_profile_values 0 "policy0" table10
              ("100 200 300 400 500 600 700 800 900 1000 " +:+ nl)
              ("100 200 300 400 500 600 700 800 900 1000 " +:+ nl) 100 1000)
    as (a' & b' & Ha' & Hb' & _ & _ & _ & H2);
    [reflexivity|by split_and!|reflexivity|reflexivity|reflexivity|reflexivity|lia|lia|].
  vm_compute in Ha, Hb'. injection Ha as <-. injection Hb' as <-.
  split; [exact (H1 ltac:(lia))|exact (H2 eq_refl)].
Defined.

(** X10. Whatever the files hold, a run of [main] through [n] iterations
    prints the start-up line once, before anything else, then sleeps five
    seconds exactly [n] times and prints nothing more; it leaves files,
    directories and permissions as they are. *)
Theorem X10_main_trace (n : nat) (w : world) :
  (readable (snd (main n w)) = readable w
   /\ writable (snd (main n w)) = writable w
   /\ listing (snd (main n w)) = listing w
   /\ stat_line (snd (main n w)) = stat_line w)
  /\ exists evs,
       trace (snd (main n w)) = trace w ++ EvPrint banner :: evs
       /\ length (List.filter is_sleep evs) = n
       /\ List.filter is_print evs = []
       /\ Forall (fun e => is_sleep e = true -> e = EvSleep 5) evs.
Proof.
  unfold main. destruct (main_start w) as [st w1] eqn:E.
  assert (H1 : (readable w1 = readable w /\ writable w1 = writable w
                /\ listing w1 = listing w /\ stat_line w1 = stat_line w)
               /\ trace w1 = trace w ++ [EvPrint banner]).
  { unfold main_start, get_cpu_times, fopen_stat in E.
    destruct (stat_line w (now w)); injection E as <- <-; done. }
  destruct H1 as ((R1 & W1 & L1 & S1) & T1).
  destruct (main_loop_trace n st w1) as ((R2 & W2 & L2 & S2) & evs & T2 & N & P & F).
  cbn zeta in *. split; [split_and!; congruence|].
  exists evs. split_and!; try done.
  rewrite T2, T1, <- app_assoc. done.
Qed.

(** X11. On a readable table with at least one token, AbsoluteMax resolves
    to the largest of the parsed values and AbsoluteMin to the smallest. *)
Theorem X11_absolute_bounds_are_extrema
    (path : string) (w : world) (content buf : string) :
  readable w (now w) (table_of path) = Some content ->
  fgets MAX_FREQ_BUF content = Some buf ->
  parse_loop FREQS_LEN buf <> [] ->
  let freqs := parse_loop FREQS_LEN buf in
  fst (resolve path AbsoluteMax w) ∈ freqs
  /\ fst (resolve path AbsoluteMin w) ∈ freqs
  /\ forall v, v ∈ freqs ->
       fst (resolve path AbsoluteMin w) <= v <= fst (resolve path AbsoluteMax w).
Proof. exact (resolve_extrema path w content buf). Qed.

Lemma X11_witness :
  fst (resolve policy0 AbsoluteMin table4_shuffled) <= 300
  <= fst (resolve policy0 AbsoluteMax table4_shuffled).
Proof.
  refine (proj2 (proj2 (X11_absolute_bounds_are_extrema policy0 table4_shuffled
           ("300 100 400 200 " +:+ nl) ("300 100 400 200 " +:+ nl) eq_refl eq_refl _)) 300 _).
  - vm_compute. discriminate.
  - change (parse_loop FREQS_LEN ("300 100 400 200 " +:+ nl)) with [300; 100; 400; 200].
    apply list_elem_of_here.
Defined.

(** X12. In a steady world, a [policy] entry whose table holds no negative
    value and a token that [atoi] turns into 0 (a 0, or a token that does
    not start with a number) gets no write: its minimum resolves to 0. *)
Theorem X12_zero_token_disables_domain
    (is_high_load : Z) (d_name : string) (w : world) (content buf : string) :
  has_prefix "policy" d_name = true ->
  steady w ->
  let path := policy_path_of d_name in
  readable w (now w) (table_of path) = Some content ->
  fgets MAX_FREQ_BUF content = Some buf ->
  0 ∈ parse_loop FREQS_LEN buf ->
  Forall (Z.le 0) (parse_loop FREQS_LEN buf) ->
  fst (resolve path AbsoluteMin w) = 0
  /\ new_events w (policy_step is_high_load d_name w) = [].
Proof.
  intros Hp St path Hr Hg H0 Hall.
  assert (Hne : parse_loop FREQS_LEN buf <> []).
  { intros E. rewrite E in H0. by apply elem_of_nil in H0. }
  assert (Hmin : forall w0, readable w0 (now w0) (table_of path) = Some content ->
                   fst (resolve path AbsoluteMin w0) = 0).
  { intros w0 Hr0.
    destruct (resolve_extrema path w0 content buf Hr0 Hg Hne)
      as (_ & Hin & Hle).
    rewrite Forall_forall in Hall. specialize (Hall _ Hin).
    specialize (Hle 0 H0). lia. }
  split; [by apply Hmin|].
  pose proof (get_target_freq_frame path f_1_0 1 0 w) as (R1 & W1 & L1 & _ & J1 & T1 & _).
  set (r1 := resolve path AbsoluteMax w) in *.
  change (get_target_freq path f_1_0 1 0 w) with r1 in *. cbn zeta in *.
  assert (F1 : same_files w (snd r1)) by (by apply same_files_frame).
  assert (E2 : fst (resolve path AbsoluteMin (snd r1)) = 0).
  { apply Hmin. by rewrite (steady_reads w _ _ St F1). }
  pose proof (policy_step_skipped is_high_load d_name w Hp) as Hs.
  cbn zeta in Hs. fold path r1 in Hs. rewrite (Hs (or_intror E2)).
  pose proof (get_target_freq_frame path f_0_0 0 1 (snd r1)) as (_ & _ & _ & _ & _ & T2 & _).
  apply new_events_app. rewrite app_nil_r.
  change (get_target_freq path f_0_0 0 1 (snd r1)) with (resolve path AbsoluteMin (snd r1)) in T2.
  cbn zeta in T2. congruence.
Qed.

Lemma X12_witness :
  fst (resolve policy0 AbsoluteMin word_in_table) = 0
  /\ new_events word_in_table (policy_step 1 "policy0" word_in_table) = [].
Proof.
  apply (X12_zero_token_disables_domain 1 "policy0" word_in_table
           ("100 abc 300 " +:+ nl) ("100 abc 300 " +:+ nl)).
  - reflexivity.
  - by split_and!.
  - reflexivity.
  - reflexivity.
  - change (parse_loop FREQS_LEN ("100 abc 300 " +:+ nl)) with [100; 0; 300].
    apply list_elem_of_further, list_elem_of_here.
  - change (parse_loop FREQS_LEN ("100 abc 300 " +:+ nl)) with [100; 0; 300].
    repeat constructor; lia.
Defined.

(** X13. For every count the array can hold, the index computed for 0.75
    is [3 * count / 4] and the one for 0.50 is [count / 2], rounded down:
    the [float] product is exact, and the cap at [count - 1] is never
    needed for the two percentiles the program uses. *)
Theorem X13_program_percentile_indices (count : Z) :
  1 <= count <= 100 ->
  to_int (b32_mul (b32_of_Z count) f_0_75) = 3 * count / 4
  /\ to_int (b32_mul (b32_of_Z count) f_0_50) = count / 2
  /\ percent_index count f_0_75 = 3 * count / 4
  /\ percent_index count f_0_50 = count / 2
  /\ 3 * count / 4 < count /\ count / 2 < count.
Proof.
  intros Hc. split_and!.
  - apply Z.eqb_eq. revert count Hc.
    apply (range_100 (fun c => to_int (b32_mul (b32_of_Z c) f_0_75) =? 3 * c / 4)).
    vm_compute. reflexivity.
  - apply Z.eqb_eq. revert count Hc.
    apply (range_100 (fun c => to_int (b32_mul (b32_of_Z c) f_0_50) =? c / 2)).
    vm_compute. reflexivity.
  - by apply index_0_75.
  - by apply index_0_50.
  - apply Z.div_lt_upper_bound; lia.
  - apply Z.div_lt_upper_bound; lia.
Qed.

Lemma X13_witness :
  percent_index 10 f_0_75 = 7 /\ percent_index 10 f_0_50 = 5.
Proof.
  pose proof (X13_program_percentile_indices 10 ltac:(lia)) as (_ & _ & H3 & H4 & _).
  split; [exact H3|exact H4].
Defined.

(** X14. A table file that opens but whose first line holds no token (an
    empty file, or only spaces and a newline) resolves to 0 whatever the
    flags and the percentage, after a single [fopen]: the fallback file is
    not consulted. *)
Theorem X14_blank_table_resolves_to_zero
    (path : string) (percent : spec_float) (ram rmin : Z) (w : world) (content : string) :
  readable w (now w) (table_of path) = Some content ->
  table_tokens content = [] ->
  get_target_freq path percent ram rmin w = (0, tick w).
Proof.
  intros Hr Ht.
  destruct (fgets MAX_FREQ_BUF content) as [buf|] eqn:Hg.
  - rewrite (get_target_freq_table _ _ _ _ _ _ _ Hr Hg). f_equal.
    apply pick_freq_empty. rewrite (table_tokens_parse _ _ Hg), Ht. done.
  - by apply get_target_freq_empty_file with content.
Qed.

Lemma X14_witness :
  get_target_freq policy0 f_1_0 1 0 blank_table = (0, tick blank_table).
Proof.
  apply (X14_blank_table_resolves_to_zero policy0 f_1_0 1 0 _ ("   " +:+ nl));
    reflexivity.
Defined.

(** X15. The usage computed from two snapshots is never a NaN, an
    infinity or a negative value: it is 0.0 or a positive canonical
    [double], so that the loop applies the high-load profile exactly when
    the number it denotes is above 40. *)
Theorem X15_usage_is_a_number (prev curr : CpuSnapshot) :
  (utilization prev curr = pos_zero
   \/ exists m e, utilization prev curr = S754_finite false m e)
  /\ valid_binary 53 1024 (utilization prev curr) = true
  /\ (classify (utilization prev curr) = HighLoad <-> above 40 (utilization prev curr)).
Proof.
  assert (H : utilization prev curr = pos_zero
              \/ exists m e, utilization prev curr = S754_finite false m e
                             /\ 2 ^ 52 <= Zpos m < 2 ^ 53 /\ -1074 <= e <= 971).
  { unfold utilization.
    pose proof (wrap64_range (totalTicks curr - totalTicks prev)) as Hr.
    destruct (Z.eq_dec (wrap64 (totalTicks curr - totalTicks prev)) 0) as [->|Hne].
    - left. reflexivity.
    - apply usage_of_shape. lia. }
  assert (Hv : valid_binary 53 1024 (utilization prev curr) = true).
  { destruct H as [->|(m & e & -> & Hm & He)]; [reflexivity|by apply normal_valid]. }
  split_and!.
  - destruct H as [H|(m & e & H & _)]; [by left|right; eauto].
  - exact Hv.
  - rewrite <- (fgt_40_above _ Hv). unfold classify, CPU_USAGE_THRESHOLD.
    destruct (fgt (utilization prev curr) (b64_of_Z 40)); split; intros E;
      (reflexivity || discriminate E).
Qed.
